(** * flaki: agent loop, tool registry, repository explorer, container tools

    A shallow embedding of the TypeScript sources of the flaky-test
    agent (tools/explore.ts, tools/docker.ts, utils/defineAiFunction.ts,
    utils/tmpdir.ts, agents/reproducer.ts, agents/filterer.ts) and the
    properties their specification states about them.

    Asynchronous functions are embedded by explicit state passing: every
    [await] in the sources is sequential, so a promise that resolves is a
    [Normal] completion, a promise that rejects (or a [throw]) is a
    [Throw] completion, and the state is threaded through in program
    order.  The collaborators that live outside the repository (the
    code-hosting API, the language model, the container runtime, the
    clock) are interfaces (type classes) over an abstract world, so that
    every theorem holds for every behaviour of the collaborator. *)

From Stdlib Require Import Ascii ZArith.
From stdpp Require Import gmap strings list pretty.

Set Warnings "-register-all".

Open Scope string_scope.
Open Scope list_scope.

(** ** Part I: the program *)

(** *** JavaScript values, errors and completions *)

Module Js.

(** Plain data as it crosses the tool boundary (arguments and results of
    tool calls).  Numbers are the integers. *)
Inductive value : Type :=
| Undefined
| Null
| Bool (b : bool)
| Num (n : Z)
| Str (s : string)
| Arr (items : list value)
| Obj (fields : list (string * value)).

(** An [Error] object: its message, and the [status] property that the
    HTTP client adds to a failed request. *)
Record error : Type := Error { status : option Z; message : string }.

(** [new Error(msg)] and [new TypeError(msg)]: no [status] property. *)
Definition new_Error (msg : string) : error :=
  {| status := None; message := msg |}.

(** How a call ends: it returns, or it throws. *)
Inductive completion (A : Type) : Type :=
| Normal (a : A)
| Throw (e : error).
Arguments Normal {A} a.
Arguments Throw {A} e.

(** How the body of a loop inside a function ends: it goes on to the next
    round, it leaves the loop, it leaves the function with a value, or it
    throws. *)
Inductive flow (A : Type) : Type :=
| Continue
| Break
| Return (a : A)
| Raise (e : error).
Arguments Continue {A}.
Arguments Break {A}.
Arguments Return {A} a.
Arguments Raise {A} e.

(** Property read [o.k] on a plain object; [undefined] when absent. *)
Fixpoint get (k : string) (fields : list (string * value)) : value :=
  match fields with
  | [] => Undefined
  | (k', v) :: rest => if decide (k' = k) then v else get k rest
  end.

(** Truthiness of an optional string: [undefined] and [''] are falsy. *)
Definition truthy (s : option string) : bool :=
  match s with
  | None => false
  | Some s => negb (bool_decide (s = ""))
  end.

(** [s || d] on an optional string. *)
Definition or_else (s : option string) (d : string) : string :=
  match s with
  | Some s' => if bool_decide (s' = "") then d else s'
  | None => d
  end.

(** Interpolation of an optional string in a template literal. *)
Definition show (s : option string) : string :=
  match s with
  | Some s' => s'
  | None => "undefined"
  end.

(** Interpolation of a value in a template literal ([String(v)]). *)
Fixpoint to_string (v : value) : string :=
  match v with
  | Undefined => "undefined"
  | Null => "null"
  | Bool true => "true"
  | Bool false => "false"
  | Num n => pretty n
  | Str s => s
  | Arr items =>
      String.concat ","
        (map (fun x => match x with
                       | Undefined | Null => ""
                       | _ => to_string x
                       end) items)
  | Obj _ => "[object Object]"
  end.

(** [s.split(sep)] for a one-character separator. *)
Fixpoint split (sep : ascii) (s : string) : list string :=
  match s with
  | EmptyString => [EmptyString]
  | String c s' =>
      if decide (c = sep) then EmptyString :: split sep s'
      else match split sep s' with
           | [] => [String c EmptyString]
           | h :: t => String c h :: t
           end
  end.

End Js.

Export Js(completion, Normal, Throw, flow, Continue, Break, Return, Raise).

(** *** tools/explore.ts: the repository explorer *)

Module Explore.

(** What [octokit.rest.repos.getContent] resolves to: [response.data] is
    an array of entries for a directory, and otherwise one entry with a
    [type] and, for files, base64 [content]. *)
Record Entry : Type := { entry_name : string; entry_type : string }.

Inductive ContentData : Type :=
| DataArray (entries : list Entry)
| DataObject (type : string) (content : option string).

(** The code-hosting read API and the runtime's base64 decoder
    ([Buffer.from(c, 'base64').toString('utf-8')]), over a world [Env]
    that the API may read and change. *)
Class Octokit (Env : Type) : Type := {
  getContent : string → string → string → Env → completion ContentData * Env;
  decodeBase64 : string → string
}.

(** One backend request: owner, repo, path. *)
Record ApiCall : Type := { call_owner : string; call_repo : string; call_path : string }.

(** The world seen from the explorer: the backend's own state and the
    log of the requests sent to it, oldest first. *)
Record World (Env : Type) : Type := {
  env : Env;
  apiCalls : list ApiCall
}.
Arguments env {Env} _.
Arguments apiCalls {Env} _.

(** What the two tools return, and what the cache stores: file text
    under a [file:] key, entry names under a [dir:] key. *)
Inductive Payload : Type :=
| Text (content : string)
| Names (names : list string).

(** The variables an instance closes over. *)
Record Explorer : Type := {
  repoFullName : string;
  owner : string;
  repo : string;
  repoCache : gmap string Payload
}.

Definition set_repoCache (c : gmap string Payload) (e : Explorer) : Explorer :=
  {| repoFullName := repoFullName e; owner := owner e; repo := repo e;
     repoCache := c |}.

(** [createExploreFunctions(repoFullName)]: a new instance with an empty
    cache, or the validation error. *)
Definition createExploreFunctions (name : string) : completion Explorer :=
  let parts := Js.split "/" name in
  let owner := parts !! 0%nat in
  let repo := parts !! 1%nat in
  if negb (Js.truthy owner) || negb (Js.truthy repo) then
    Throw (Js.new_Error ("Invalid repository name format: " +:+ name
                           +:+ ". Expected 'owner/repo'"))
  else
    Normal {| repoFullName := name;
              owner := default "" owner;
              repo := default "" repo;
              repoCache := ∅ |}.

Section Tools.
Context {Env : Type} `{!Octokit Env}.

(** [await octokit.rest.repos.getContent({ owner, repo, path })]. *)
Definition request (o r p : string) (w : World Env)
  : completion ContentData * World Env :=
  let '(res, env') := getContent o r p (env w) in
  (res, {| env := env';
           apiCalls := apiCalls w ++ [ {| call_owner := o; call_repo := r; call_path := p |} ] |}).

Definition fileKey (e : Explorer) (path : string) : string :=
  "file:" +:+ repoFullName e +:+ ":" +:+ path.

Definition dirKey (e : Explorer) (path : string) : string :=
  "dir:" +:+ repoFullName e +:+ ":" +:+ path.

(** [readFile.implementation({ path })]. *)
Definition readFile (path : string) (e : Explorer) (w : World Env)
  : completion Payload * Explorer * World Env :=
  let cacheKey := fileKey e path in
  match repoCache e !! cacheKey with
  | Some cached => (Normal cached, e, w)
  | None =>
      let '(response, w1) := request (owner e) (repo e) path w in
      (* the body of the try block *)
      let '(tried, e1) :=
        match response with
        | Throw err => (Throw err, e)
        | Normal (DataArray _) =>
            (Throw (Js.new_Error (path +:+ " is a directory, not a file")), e)
        | Normal (DataObject type (Some content)) =>
            if bool_decide (type = "file") then
              let content := decodeBase64 content in
              (Normal (Text content),
               set_repoCache (<[cacheKey := Text content]> (repoCache e)) e)
            else (Throw (Js.new_Error ("Unable to read file: " +:+ path)), e)
        | Normal (DataObject _ None) =>
            (Throw (Js.new_Error ("Unable to read file: " +:+ path)), e)
        end in
      (* the catch clause *)
      match tried with
      | Normal v => (Normal v, e1, w1)
      | Throw error =>
          if bool_decide (Js.status error = Some 404%Z) then
            (Throw (Js.new_Error ("File not found: " +:+ path)), e1, w1)
          else
            (Throw (Js.new_Error ("Failed to read file " +:+ path +:+ ": "
                                    +:+ Js.message error)), e1, w1)
      end
  end.

(** [listDir.implementation({ path })]. *)
Definition listDir (path : string) (e : Explorer) (w : World Env)
  : completion Payload * Explorer * World Env :=
  let cacheKey := dirKey e path in
  match repoCache e !! cacheKey with
  | Some cached => (Normal cached, e, w)
  | None =>
      let '(response, w1) :=
        request (owner e) (repo e) (if bool_decide (path = ".") then "" else path) w in
      let '(tried, e1) :=
        match response with
        | Throw err => (Throw err, e)
        | Normal (DataArray entries) =>
            let contents := map entry_name entries in
            (Normal (Names contents),
             set_repoCache (<[cacheKey := Names contents]> (repoCache e)) e)
        | Normal (DataObject _ _) =>
            (Throw (Js.new_Error (path +:+ " is a file, not a directory")), e)
        end in
      match tried with
      | Normal v => (Normal v, e1, w1)
      | Throw error =>
          if bool_decide (Js.status error = Some 404%Z) then
            (Throw (Js.new_Error ("Directory not found: " +:+ path)), e1, w1)
          else
            (Throw (Js.new_Error ("Failed to list directory " +:+ path +:+ ": "
                                    +:+ Js.message error)), e1, w1)
      end
  end.

(** **** Several instances in one process

    Every call of [createExploreFunctions] allocates its own
    [repoCache]; the instances of a process are kept in a store and
    named by their position in it.  All instances talk to the one
    [octokit] client. *)
Record Process : Type := {
  world : World Env;
  explorers : list Explorer
}.

Definition create (name : string) (p : Process) : completion nat * Process :=
  match createExploreFunctions name with
  | Throw err => (Throw err, p)
  | Normal e =>
      (Normal (length (explorers p)),
       {| world := world p; explorers := explorers p ++ [e] |})
  end.

Inductive Tool : Type := ReadFile | ListDir.

Definition implementation (t : Tool) : string → Explorer → World Env
                                       → completion Payload * Explorer * World Env :=
  match t with
  | ReadFile => readFile
  | ListDir => listDir
  end.

(** The tool [t] of instance [self] called with [path]; [None] when no
    instance [self] has been created. *)
Definition call (self : nat) (t : Tool) (path : string) (p : Process)
  : option (completion Payload * Process) :=
  match explorers p !! self with
  | None => None
  | Some e =>
      let '(res, e', w') := implementation t path e (world p) in
      Some (res, {| world := w'; explorers := <[self := e']> (explorers p) |})
  end.

(** A run of the process: instances are created and their tools are
    called, in some order. *)
Inductive Op : Type :=
| Create (name : string)
| Call (self : nat) (t : Tool) (path : string).

Definition step (o : Op) (p : Process) : Process :=
  match o with
  | Create name => snd (create name p)
  | Call self t path =>
      match call self t path p with
      | Some (_, p') => p'
      | None => p
      end
  end.

Definition run (ops : list Op) (p : Process) : Process :=
  fold_left (fun p o => step o p) ops p.

End Tools.

Arguments Process Env : clear implicits.

End Explore.


(** *** utils/tmpdir.ts: temporary directories *)

Module TmpDir.

(** The host's clock and random source: [Date.now()] and
    [Math.random().toString(36).slice(2, 9)], both as text, and
    [os.tmpdir()]. *)
Class Os (Env : Type) : Type := {
  tmpdir : string;
  now_random : Env → (string * string) * Env
}.

(** The part of the file system the program touches: the directories that
    exist and the files by full path. *)
Record FileSystem : Type := {
  directories : gset string;
  files : gmap string string
}.

(** [path.join(dir, name)] for a directory without trailing separator. *)
Definition join (dir name : string) : string := dir +:+ "/" +:+ name.

(** [mkdir(dir, { recursive: true })]: no error when [dir] exists. *)
Definition mkdir (dir : string) (fs : FileSystem) : FileSystem :=
  {| directories := {[dir]} ∪ directories fs; files := files fs |}.

(** [writeFile(path, data)]. *)
Definition writeFile (path data : string) (fs : FileSystem) : FileSystem :=
  {| directories := directories fs; files := <[path := data]> (files fs) |}.

(** The class [TmpDirManager]: the set [dirs] of directories to remove
    when the process ends. *)
Record TmpDirManager : Type := { dirs : gset string }.

Section Create.
Context {Env : Type} `{!Os Env}.

(** [TmpDirManager.create(prefix)]. *)
Definition create (prefix : string) (m : TmpDirManager) (fs : FileSystem) (env : Env)
  : string * TmpDirManager * FileSystem * Env :=
  let '((now, random), env') := now_random env in
  let dir := join tmpdir (prefix +:+ "-" +:+ now +:+ "-" +:+ random) in
  (dir, {| dirs := {[dir]} ∪ dirs m |}, mkdir dir fs, env').

End Create.




End TmpDir.

(** *** tools/docker.ts: the container tools *)

Module Docker.

(** One record of the build's progress stream. [errorDetail] holds the
    detail's message when the record has an [errorDetail] object. *)
Record BuildStep : Type := { errorDetail : option string; error : option string }.

(** What [docker.modem.followProgress] hands to its callback. *)
Inductive BuildProgress : Type :=
| ProgressError (err : Js.error)
| ProgressDone (res : list BuildStep).

(** The container runtime and [git], over the host's world. [git_clone]
    yields the files checked out, by path relative to the clone. The build
    receives the files named by [src] as read from the context directory. *)
Class Runtime (Env : Type) : Type := {
  git_clone : string → string → Env → completion (list (string * string)) * Env;
  docker_buildImage : list (string * option string) → string → Env
                      → completion BuildProgress * Env;
  image_inspect : string → Env → completion () * Env;
  docker_createContainer : string → list string → Env → completion string * Env;
  container_start : string → Env → completion () * Env
}.

(** The requests the container tools send out, oldest first. *)
Inductive Event : Type :=
| GitClone (url dir : string)
| BuildImage (context : string) (src : list string) (tag : string)
| InspectImage (imageName : string)
| CreateContainer (imageName : string) (binds : list string).

(** The host: the world of the runtime, the file system, the process-wide
    [tmpDirManager] and the requests sent so far. *)
Record Host (Env : Type) : Type := {
  env : Env;
  fs : TmpDir.FileSystem;
  tmpDirManager : TmpDir.TmpDirManager;
  trace : list Event
}.
Arguments env {Env} _.
Arguments fs {Env} _.
Arguments tmpDirManager {Env} _.
Arguments trace {Env} _.

(** The variables an instance of [createDockerFunctions] closes over. *)
Record DockerFunctions : Type := {
  repoUrl : option string;
  repoDir : option string;
  containerId : option string
}.

Definition createDockerFunctions (repoFullName : option string) : DockerFunctions :=
  {| repoUrl := if Js.truthy repoFullName
                then Some ("https://github.com/" +:+ default "" repoFullName +:+ ".git")
                else None;
     repoDir := None;
     containerId := None |}.

(** [stepFailed step]: the filter [step.errorDetail || step.error]. *)
Definition stepFailed (step : BuildStep) : bool :=
  match errorDetail step with
  | Some _ => true
  | None => Js.truthy (error step)
  end.

(** [firstError.errorDetail?.message || firstError.error || 'Unknown build error']. *)
Definition stepMessage (firstError : BuildStep) : string :=
  if Js.truthy (errorDetail firstError) then default "" (errorDetail firstError)
  else Js.or_else (error firstError) "Unknown build error".

Section Tools.
Context {Env : Type} `{!TmpDir.Os Env} `{!Runtime Env}.

Definition emit (ev : Event) (h : Host Env) : Host Env :=
  {| env := env h; fs := fs h; tmpDirManager := tmpDirManager h;
     trace := trace h ++ [ev] |}.

Definition set_env (env' : Env) (h : Host Env) : Host Env :=
  {| env := env'; fs := fs h; tmpDirManager := tmpDirManager h; trace := trace h |}.

Definition set_fs (fs' : TmpDir.FileSystem) (h : Host Env) : Host Env :=
  {| env := env h; fs := fs'; tmpDirManager := tmpDirManager h; trace := trace h |}.

(** [await tmpDirManager.create(prefix)]. *)
Definition tmpDirManager_create (prefix : string) (h : Host Env) : string * Host Env :=
  let '(dir, m', fs', env') := TmpDir.create prefix (tmpDirManager h) (fs h) (env h) in
  (dir, {| env := env'; fs := fs'; tmpDirManager := m'; trace := trace h |}).

(** [execSync(`git clone ${repoUrl} ${repoDir}`)]. *)
Definition execSync_git_clone (url dir : string) (h : Host Env) : completion () * Host Env :=
  let h := emit (GitClone url dir) h in
  match git_clone url dir (env h) with
  | (Throw e, env') => (Throw e, set_env env' h)
  | (Normal checkout, env') =>
      (Normal (),
       set_fs (fold_left (fun fs f => TmpDir.writeFile (TmpDir.join dir (fst f)) (snd f) fs)
                         checkout (fs h))
              (set_env env' h))
  end.

(** The body of the [try] block of [buildImage]: build from the context
    directory, wait for the stream, look for failed steps, inspect the
    image. *)
Definition buildAndVerify (buildContextDir imageName : string) (h : Host Env)
  : completion string * Host Env :=
  let src := ["Dockerfile"] in
  let h := emit (BuildImage buildContextDir src imageName) h in
  let context := map (fun f => (f, TmpDir.files (fs h) !! TmpDir.join buildContextDir f)) src in
  match docker_buildImage context imageName (env h) with
  | (Throw e, env') => (Throw e, set_env env' h)
  | (Normal (ProgressError err), env') =>
      (Throw (Js.new_Error ("Docker build failed: " +:+ Js.message err)), set_env env' h)
  | (Normal (ProgressDone buildResult), env') =>
      let h := set_env env' h in
      let failedSteps := filter (fun step => stepFailed step = true) buildResult in
      match failedSteps with
      | firstError :: _ =>
          (Throw (Js.new_Error ("Docker build failed: " +:+ stepMessage firstError)), h)
      | [] =>
          let h := emit (InspectImage imageName) h in
          match image_inspect imageName (env h) with
          | (Normal _, env') => (Normal imageName, set_env env' h)
          | (Throw inspectError, env') =>
              (Throw (Js.new_Error ("Image build completed but image '" +:+ imageName
                                      +:+ "' was not found: " +:+ Js.message inspectError)),
               set_env env' h)
          end
      end
  end.

(** [buildImage.implementation({ dockerfile, imageName })]. *)
Definition buildImage (dockerfile imageName : string) (s : DockerFunctions) (h : Host Env)
  : completion string * DockerFunctions * Host Env :=
  let '(cloned, s, h) :=
    match repoUrl s with
    | Some url =>
        let '(dir, h) := tmpDirManager_create "repo-clone" h in
        let s := {| repoUrl := repoUrl s; repoDir := Some dir; containerId := containerId s |} in
        let '(r, h) := execSync_git_clone url dir h in
        (r, s, h)
    | None => (Normal (), s, h)
    end in
  match cloned with
  | Throw e => (Throw e, s, h)
  | Normal _ =>
      let '(buildContextDir, h) := tmpDirManager_create "docker-build" h in
      let dockerfilePath := TmpDir.join buildContextDir "Dockerfile" in
      let h := set_fs (TmpDir.writeFile dockerfilePath dockerfile (fs h)) h in
      match buildAndVerify buildContextDir imageName h with
      | (Normal name, h) => (Normal name, s, h)
      | (Throw buildError, h) =>
          (Throw (Js.new_Error ("Failed to build Docker image '" +:+ imageName +:+ "': "
                                  +:+ Js.message buildError)), s, h)
      end
  end.

(** [createContainer.implementation({ imageName })]. *)
Definition createContainer (imageName : string) (s : DockerFunctions) (h : Host Env)
  : completion string * DockerFunctions * Host Env :=
  let binds := match repoDir s with
               | Some dir => [dir +:+ ":/workspace"]
               | None => []
               end in
  let h := emit (CreateContainer imageName binds) h in
  match docker_createContainer imageName binds (env h) with
  | (Throw e, env') => (Throw e, s, set_env env' h)
  | (Normal id, env') =>
      match container_start id env' with
      | (Throw e, env'') => (Throw e, s, set_env env'' h)
      | (Normal _, env'') =>
          (Normal id,
           {| repoUrl := repoUrl s; repoDir := repoDir s; containerId := Some id |},
           set_env env'' h)
      end
  end.

End Tools.

(** [chunk.subarray(start)] on the bytes of a chunk. *)
Fixpoint subarray (start : nat) (chunk : string) : string :=
  match start, chunk with
  | O, _ => chunk
  | S start', String _ rest => subarray start' rest
  | S _, EmptyString => EmptyString
  end.

(** The part of the container runtime that [executeCommand] uses:
    [container.inspect()] for [State.Running], and [container.exec] with
    [exec.start], which yield the chunks of the output stream. *)
Class Exec (Env : Type) : Type := {
  container_inspect : string → Env → completion bool * Env;
  container_exec : string → list string → Env → completion (list string) * Env
}.

Section Execute.
Context {Env : Type} `{!Runtime Env} `{!Exec Env}.

(** [executeCommand.implementation({ command })].  The text of the stream
    is the concatenation of its chunks, each without its first 8 bytes. *)
Definition executeCommand (command : string) (s : DockerFunctions) (h : Host Env)
  : completion string * DockerFunctions * Host Env :=
  if negb (Js.truthy (containerId s)) then
    (Throw (Js.new_Error "No container has been created yet. Call createContainer first."),
     s, h)
  else
      let id := default "" (containerId s) in
      match container_inspect id (env h) with
      | (Throw e, env') => (Throw e, s, set_env env' h)
      | (Normal running, env') =>
          let '(started, env') :=
            if running then (Normal (), env') else container_start id env' in
          match started with
          | Throw e => (Throw e, s, set_env env' h)
          | Normal _ =>
              match container_exec id ["sh"; "-c"; command] env' with
              | (Throw e, env'') => (Throw e, s, set_env env'' h)
              | (Normal chunks, env'') =>
                  (Normal (String.concat "" (map (subarray 8) chunks)), s, set_env env'' h)
              end
          end
      end.

End Execute.

End Docker.


(** *** The language-model client (package [@google/genai]) *)

Module GenAI.

(** Modelled from the spec: the SDK's declarations of a tool-call request,
    of the turns of a conversation and of a model response are not part of
    the repository.  A tool-call request is a name and an untyped
    structured value (a plain object); the sources treat the name as
    optional; a response has optional free text and optional tool-call
    requests. *)
Record FunctionCall : Type := {
  name : option string;
  args : list (string * Js.value)
}.

(** The key under which a tool's result is put in a function response. *)
Inductive Key : Type := output | error.

Inductive Part : Type :=
| text_part (text : string)
| functionCall_part (name : option string) (args : Js.value)
| functionResponse_part (name : option string) (key : Key) (result : Js.value).

Record Content : Type := { role : string; parts : list Part }.

Record GenerateContentParameters : Type := {
  model : string;
  contents : list Content;
  functionDeclarations : list string;
  systemInstruction : string
}.

Record GenerateContentResponse : Type := {
  text : option string;
  functionCalls : option (list FunctionCall)
}.

(** [genAI.models.generateContent], over a world [W] that the backend may
    read and change. *)
Class Models (W : Type) : Type := {
  generateContent : GenerateContentParameters → W → completion GenerateContentResponse * W
}.

End GenAI.

(** *** logger.ts and the observable trace of an agent run *)

Module Logger.

Inductive Level : Type := debug | info | warn | error.

(** What a run does to the outside, oldest first: the model is invoked, the
    implementation of a tool is run, a line is logged. *)
Inductive Event : Type :=
| ModelInvoked (request : GenAI.GenerateContentParameters)
               (response : completion GenAI.GenerateContentResponse)
| ImplementationRun (name : string) (args : Js.value)
| Logged (level : Level) (message : string).

(** The world of the collaborators together with the trace. *)
Record Runtime (W : Type) : Type := {
  world : W;
  trace : list Event
}.
Arguments world {W} _.
Arguments trace {W} _.

Definition emit {W : Type} (ev : Event) (rt : Runtime W) : Runtime W :=
  {| world := world rt; trace := trace rt ++ [ev] |}.

(** [logger.debug(message)], [logger.warn(message)]. *)
Definition log {W : Type} (level : Level) (message : string) (rt : Runtime W) : Runtime W :=
  emit (Logged level message) rt.

(** Reading a trace: the responses of the model, one for each invocation;
    the names of the tools whose implementation was run; the warnings. *)
Definition responsesOf (tr : list Event) : list (completion GenAI.GenerateContentResponse) :=
  omap (λ ev, match ev with ModelInvoked _ response => Some response | _ => None end) tr.

Definition modelInvocations (tr : list Event) : nat := length (responsesOf tr).

Definition implementationsRun (tr : list Event) : list string :=
  omap (λ ev, match ev with ImplementationRun name _ => Some name | _ => None end) tr.

Definition warnings (tr : list Event) : list string :=
  omap (λ ev, match ev with Logged warn message => Some message | _ => None end) tr.

End Logger.

(** *** utils/defineAiFunction.ts: the tool registry *)

Module DefineAiFunction.

(** An [AiFunction]: the declared name and the implementation. *)
Record AiFunction (W : Type) : Type := {
  declaration_name : string;
  implementation : Js.value → W → completion Js.value * W
}.
Arguments declaration_name {W} _.
Arguments implementation {W} _.

(** [Object.fromEntries(aiFunctions.map(f => [f.declaration.name, f]))]: a
    later entry replaces an earlier one of the same name. *)
Definition fromEntries {W : Type} (aiFunctions : list (AiFunction W))
  : gmap string (AiFunction W) :=
  fold_left (fun m f => <[declaration_name f := f]> m) aiFunctions ∅.

(** [runAiFunction(func, name, args)].  The object [func] is a finite map
    from its own keys; keys inherited from [Object.prototype] are not part
    of the model. *)
Definition runAiFunction {W : Type} (func : gmap string (AiFunction W))
    (name : string) (args : Js.value) (rt : Logger.Runtime W)
  : completion Js.value * Logger.Runtime W :=
  match func !! name with
  | None => (Throw (Js.new_Error ("Function '" +:+ name +:+ "' not found")), rt)
  | Some f =>
      let rt := Logger.emit (Logger.ImplementationRun name args) rt in
      let '(res, w') := implementation f args (Logger.world rt) in
      (res, {| Logger.world := w'; Logger.trace := Logger.trace rt |})
  end.

End DefineAiFunction.

(** *** agents/reproducer.ts: the reproduction agent *)

Module Reproducer.
Import GenAI Logger DefineAiFunction.

(** The finalize tool. *)
Definition report {W : Type} : AiFunction W :=
  {| declaration_name := "report";
     implementation := fun _ w => (Normal Js.Undefined, w) (* dummy implementation *) |}.

(** The implementations of the tools that [createExploreFunctions] and
    [createDockerFunctions] hand to the agent. *)
Record Tools (W : Type) : Type := {
  readFile : Js.value → W → completion Js.value * W;
  listDir : Js.value → W → completion Js.value * W;
  buildImage : Js.value → W → completion Js.value * W;
  createContainer : Js.value → W → completion Js.value * W;
  executeCommand : Js.value → W → completion Js.value * W
}.
Arguments readFile {W} _.
Arguments listDir {W} _.
Arguments buildImage {W} _.
Arguments createContainer {W} _.
Arguments executeCommand {W} _.

(** An entry of [functionCallHistory] and of [agentResponses]. *)
Record CallRecord : Type := {
  call_name : string;
  call_args : Js.value;
  call_result : Js.value;
  call_key : Key
}.

Record AgentResponse : Type := { iteration : nat; response_text : string }.

(** What [reproduceWithGemini] resolves to; [finalResult] is [None] for
    [null]. *)
Record Result : Type := {
  finalResult : option Js.value;
  functionCallHistory : list CallRecord;
  agentResponses : list AgentResponse
}.

(** The local variables of [reproduceWithGemini] that the loop updates. *)
Record State (W : Type) : Type := {
  runtime : Runtime W;
  contents : list Content;
  history : list CallRecord;
  responses : list AgentResponse
}.
Arguments runtime {W} _.
Arguments contents {W} _.
Arguments history {W} _.
Arguments responses {W} _.

(** [s.replace(pattern, by)] for a string pattern: the first occurrence. *)
Fixpoint replace (pattern by_ s : string) : string :=
  if String.prefix pattern s then
    by_ +:+ String.substring (String.length pattern) (String.length s - String.length pattern) s
  else match s with
       | EmptyString => EmptyString
       | String c s' => String c (replace pattern by_ s')
       end.

Section Agent.
Context {W : Type} `{!Models W}.
Variable tools : Tools W.
Variable systemInstruction : string.

Definition aiFunctions : list (AiFunction W) :=
  [ {| declaration_name := "readFile"; implementation := readFile tools |};
    {| declaration_name := "listDir"; implementation := listDir tools |};
    {| declaration_name := "buildImage"; implementation := buildImage tools |};
    {| declaration_name := "createContainer"; implementation := createContainer tools |};
    {| declaration_name := "executeCommand"; implementation := executeCommand tools |};
    report ].

Definition aiFunctionsMap : gmap string (AiFunction W) := fromEntries aiFunctions.

Definition declarations : list string := map declaration_name aiFunctions.

Definition with_runtime (f : Runtime W → Runtime W) (st : State W) : State W :=
  {| runtime := f (runtime st); contents := contents st;
     history := history st; responses := responses st |}.

(** The [try] block and its [catch] clause around the dispatch of one
    call: the key and the result that go to the history. *)
Definition dispatch (name : option string) (args : Js.value) (rt : Runtime W)
  : Key * Js.value * Runtime W :=
  let '(tried, rt) :=
    if negb (Js.truthy name) then (Throw (Js.new_Error "Function call missing name"), rt)
    else
      match runAiFunction aiFunctionsMap (default "" name) args rt with
      | (Normal result, rt) =>
          (Normal result, log debug ("✅ Tool " +:+ Js.show name +:+ " completed successfully") rt)
      | (Throw e, rt) => (Throw e, rt)
      end in
  match tried with
  | Normal result => (GenAI.output, result, rt)
  | Throw e =>
      (GenAI.error, Js.Str ("Error: " +:+ Js.message e),
       log debug ("❌ Tool " +:+ Js.show name +:+ " failed: " +:+ Js.message e) rt)
  end.

(** [for (const call of functionCalls) { ... }]. *)
Fixpoint processCalls (functionCalls : list FunctionCall) (st : State W) : flow Js.value * State W :=
  match functionCalls with
  | [] => (Continue, st)
  | call :: rest =>
      let name := name call in
      let args := Js.Obj (args call) in
      let rt := log debug ("🔧 Agent calling tool: " +:+ Js.show name +:+ " with args:") (runtime st) in
      let '(key, result, rt) := dispatch name args rt in
      let history :=
        history st ++ [ {| call_name := Js.or_else name "unknown"; call_args := args;
                           call_result := result; call_key := key |} ] in
      if bool_decide (name = Some "report") then
        let finalResult := args in
        (Return finalResult,
         {| runtime := log debug ("Report called with status: "
                                    +:+ Js.to_string (Js.get "status" (GenAI.args call))) rt;
            contents := contents st; history := history; responses := responses st |})
      else
        processCalls rest
          {| runtime := rt;
             contents := contents st ++
               [ {| role := "model"; parts := [functionCall_part name args] |};
                 {| role := "user"; parts := [functionResponse_part name key result] |} ];
             history := history; responses := responses st |}
  end.

(** The first half of the body of the [for] loop: the system instruction
    for this turn, the request to the model, and the record of its free
    text. *)
Definition askModel (maxIterations i : nat) (st : State W)
  : completion GenerateContentResponse * State W :=
  let remainingIterations := (Z.of_nat maxIterations - Z.of_nat i - 1)%Z in
  let currentSystemInstruction :=
    replace "{maxIterations}" (pretty maxIterations)
      (replace "{remainingIterations}" (pretty remainingIterations) systemInstruction) in
  let request :=
    {| model := "gemini-2.5-pro"; GenAI.contents := contents st;
       functionDeclarations := declarations;
       GenAI.systemInstruction := currentSystemInstruction |} in
  let '(response, w') := generateContent request (world (runtime st)) in
  let st := with_runtime (fun rt => emit (ModelInvoked request response)
                                      {| world := w'; trace := trace rt |}) st in
  match response with
  | Throw e => (Throw e, st)
  | Normal response =>
      if Js.truthy (text response) then
        (Normal response,
         {| runtime := log debug ("💬 Agent response (iteration " +:+ pretty (i + 1)%nat
                                    +:+ "): " +:+ Js.show (text response)) (runtime st);
            contents := contents st; history := history st;
            responses := responses st ++
              [ {| iteration := i + 1; response_text := Js.show (text response) |} ] |})
      else (Normal response, st)
  end.

(** The body of [for (let i = 0; i < maxIterations; i++) { ... }]. *)
Definition iterationBody (maxIterations i : nat) (st : State W) : flow Js.value * State W :=
  match askModel maxIterations i st with
  | (Throw e, st) => (Raise e, st)
  | (Normal response, st) =>
      let functionCalls := default [] (functionCalls response) in
      if bool_decide (length functionCalls = 0%nat) then
        (Break, with_runtime (log debug "Agent responded without making a function call:") st)
      else processCalls functionCalls st
  end.

(** The [for] loop from iteration [i] on, with [todo] iterations to go
    ([todo = maxIterations - i]). *)
Fixpoint iterations (maxIterations todo i : nat) (st : State W) : flow Js.value * State W :=
  match todo with
  | O => (Continue, st)
  | S todo' =>
      match iterationBody maxIterations i st with
      | (Continue, st') => iterations maxIterations todo' (S i) st'
      | stop => stop
      end
  end.

(** [reproduceWithGemini], from the first turn of the conversation on; the
    prompt that the function composes from the issue is [initialPrompt]. *)
Definition reproduceWithGemini (initialPrompt : string) (maxIterations : nat) (w : W)
  : completion Result * Runtime W :=
  let st := {| runtime := {| world := w; trace := [] |};
               contents := [ {| role := "user"; parts := [text_part initialPrompt] |} ];
               history := []; responses := [] |} in
  match iterations maxIterations maxIterations 0 st with
  | (Return finalResult, st) =>
      (Normal {| finalResult := Some finalResult;
                 functionCallHistory := history st; agentResponses := responses st |},
       runtime st)
  | (Raise e, st) => (Throw e, runtime st)
  | (_, st) =>
      let rt := log warn "Reproducer agent exceeded max iterations without reporting a final result."
                    (runtime st) in
      (Normal {| finalResult := None;
                 functionCallHistory := history st; agentResponses := responses st |}, rt)
  end.

End Agent.

End Reproducer.


(** *** agents/filterer.ts: the classification agent *)

Module Filterer.
Import GenAI Logger DefineAiFunction.

(** The finalize tool. *)
Definition analyzeIssue {W : Type} : AiFunction W :=
  {| declaration_name := "analyzeIssue";
     implementation := fun _ w => (Normal Js.Undefined, w) (* dummy implementation *) |}.

(** The implementations of the tools of [createExploreFunctions]. *)
Record Tools (W : Type) : Type := {
  readFile : Js.value → W → completion Js.value * W;
  listDir : Js.value → W → completion Js.value * W
}.
Arguments readFile {W} _.
Arguments listDir {W} _.

(** What [analyzeIssueWithGemini] resolves to. *)
Record FiltererResult : Type := {
  isFlakyTestIssue : Js.value;
  confidence : Js.value;
  summary : Js.value;
  reasoning : Js.value;
  environment : Js.value
}.

(** The local variables of [analyzeIssueWithGemini] that the loop updates. *)
Record State (W : Type) : Type := {
  runtime : Runtime W;
  contents : list Content
}.
Arguments runtime {W} _.
Arguments contents {W} _.

Definition maxIterations : nat := 10.

Section Agent.
Context {W : Type} `{!Models W}.
Variable tools : Tools W.
Variable systemInstruction : string.

Definition aiFunctions : list (AiFunction W) :=
  [ {| declaration_name := "readFile"; implementation := readFile tools |};
    {| declaration_name := "listDir"; implementation := listDir tools |};
    analyzeIssue ].

Definition aiFunctionsMap : gmap string (AiFunction W) := fromEntries aiFunctions.

Definition declarations : list string := map declaration_name aiFunctions.

(** The [try] block and its [catch] clause around the execution of one
    tool: the result that goes to the conversation. *)
Definition execute (name : option string) (args : Js.value) (rt : Runtime W)
  : Js.value * Runtime W :=
  let '(tried, rt) :=
    if negb (Js.truthy name) then (Throw (Js.new_Error "Function call missing name"), rt)
    else
      match runAiFunction aiFunctionsMap (default "" name) args rt with
      | (Normal result, rt) =>
          (Normal result, log debug ("✅ Tool " +:+ Js.show name +:+ " completed successfully") rt)
      | (Throw e, rt) => (Throw e, rt)
      end in
  match tried with
  | Normal result => (result, rt)
  | Throw e =>
      (Js.Str ("Error: " +:+ Js.message e),
       log debug ("❌ Tool " +:+ Js.show name +:+ " failed: " +:+ Js.message e) rt)
  end.

(** [for (const call of functionCalls) { ... }]. *)
Fixpoint processCalls (functionCalls : list FunctionCall) (st : State W)
  : flow FiltererResult * State W :=
  match functionCalls with
  | [] => (Continue, st)
  | call :: rest =>
      let name := name call in
      if bool_decide (name = Some "analyzeIssue") then
        let resultArgs := args call in
        (Return {| isFlakyTestIssue := Js.get "isFlakyTestIssue" resultArgs;
                   confidence := Js.get "confidence" resultArgs;
                   summary := Js.get "summary" resultArgs;
                   reasoning := Js.get "reasoning" resultArgs;
                   environment := Js.get "environment" resultArgs |}, st)
      else
        let args := Js.Obj (args call) in
        let rt := log debug ("🔧 Agent calling tool: " +:+ Js.show name +:+ " with args:")
                      (runtime st) in
        let '(result, rt) := execute name args rt in
        processCalls rest
          {| runtime := rt;
             contents := contents st ++
               [ {| role := "model"; parts := [functionCall_part name args] |};
                 {| role := "user"; parts := [functionResponse_part name output result] |} ] |}
  end.

(** The body of [for (let i = 0; i < maxIterations; i++) { ... }]. *)
Definition iterationBody (st : State W) : flow FiltererResult * State W :=
  let request :=
    {| model := "gemini-2.5-pro"; GenAI.contents := contents st;
       functionDeclarations := declarations;
       GenAI.systemInstruction := systemInstruction |} in
  let '(response, w') := generateContent request (world (runtime st)) in
  let st := {| runtime := emit (ModelInvoked request response)
                               {| world := w'; trace := trace (runtime st) |};
               contents := contents st |} in
  match response with
  | Throw e => (Raise e, st)
  | Normal response =>
      let functionCalls := default [] (functionCalls response) in
      if bool_decide (length functionCalls = 0%nat) then
        (Break,
         {| runtime := log debug "Agent responded without making a function call:" (runtime st);
            contents := contents st |})
      else processCalls functionCalls st
  end.

(** The [for] loop with [todo] iterations to go. *)
Fixpoint iterations (todo : nat) (st : State W) : flow FiltererResult * State W :=
  match todo with
  | O => (Continue, st)
  | S todo' =>
      match iterationBody st with
      | (Continue, st') => iterations todo' st'
      | stop => stop
      end
  end.

(** [analyzeIssueWithGemini], from the first turn of the conversation on;
    the prompt that the function composes from the issue is
    [initialPrompt]. *)
Definition analyzeIssueWithGemini (initialPrompt : string) (w : W)
  : completion FiltererResult * Runtime W :=
  let st := {| runtime := {| world := w; trace := [] |};
               contents := [ {| role := "user"; parts := [text_part initialPrompt] |} ] |} in
  match iterations maxIterations st with
  | (Return result, st) => (Normal result, runtime st)
  | (Raise e, st) => (Throw e, runtime st)
  | (_, st) =>
      (Throw (Js.new_Error ("AI completed analysis without calling analyzeIssue after "
                              +:+ pretty maxIterations +:+ " iterations")),
       runtime st)
  end.

End Agent.

End Filterer.


(** *** find.ts: the search for candidate issues *)

Module Find.

(** types.ts: a repository of the search, an issue found. *)
Record Repo : Type := { full_name : string; stargazers_count : Z }.

Record FindResult : Type := {
  title : string;
  url : string;
  repo : string;
  stars : Z;
  comments : Z;
  reactions : Z;
  created : string
}.

(** [GraphQLIssueResponse]: the nodes of one page of the issue search and
    its [pageInfo]. *)
Record IssueNode : Type := {
  node_title : string;
  node_url : string;
  node_createdAt : string;
  node_comments : Z;
  node_reactions : Z
}.

Record SearchPage : Type := {
  edges : list IssueNode;
  endCursor : option string;
  hasNextPage : bool
}.

(** The search API: [octokit.rest.search.repos] (sorted by stars,
    descending) with [q], [per_page] and [page], resolving to
    [data.items]; and [octokit.graphql] with the issue query and its
    variables [searchQuery], [first] and [after]. *)
Class Search (Env : Type) : Type := {
  search_repos : string → nat → nat → Env → completion (list Repo) * Env;
  graphql : string → nat → option string → Env → completion SearchPage * Env
}.

Inductive Request : Type :=
| SearchRepos (q : string) (per_page page : nat)
| SearchIssues (searchQuery : string) (first : nat) (after : option string).

(** What the cache file holds. *)
Record RepoCache : Type := {
  query : string;
  pages : nat;
  perPage : nat;
  repos : list Repo
}.

(** A line of output: through the logger, or on the console. *)
Inductive Line : Type :=
| Info (message : string)
| Console (message : string).

(** The world of the search: the API's own state, the requests sent to it
    (oldest first), the cache files on disk by name, and the lines
    written.  The pauses between requests are not part of the model. *)
Record World (Env : Type) : Type := {
  env : Env;
  requests : list Request;
  disk : gmap string RepoCache;
  lines : list Line
}.
Arguments env {Env} _.
Arguments requests {Env} _.
Arguments disk {Env} _.
Arguments lines {Env} _.

Section Fetch.
Context {Env : Type} `{!Search Env}.

Definition say (verbose : bool) (line : Line) (w : World Env) : World Env :=
  if verbose then
    {| env := env w; requests := requests w; disk := disk w; lines := lines w ++ [line] |}
  else w.

Definition send (r : Request) (env' : Env) (w : World Env) : World Env :=
  {| env := env'; requests := requests w ++ [r]; disk := disk w; lines := lines w |}.

(** The loop [for (let page = 1; page <= repoPages; page++)] of
    [fetchRepos], with [todo] pages to go. *)
Fixpoint fetchRepoPages (repoQuery : string) (repoPages repoPerPage : nat) (verbose : bool)
    (todo page : nat) (repos : list Repo) (w : World Env)
  : completion (list Repo) * World Env :=
  match todo with
  | O => (Normal repos, w)
  | S todo' =>
      let w := say verbose (Info ("Fetching repo page " +:+ pretty page +:+ "/"
                                    +:+ pretty repoPages +:+ "...")) w in
      match search_repos repoQuery repoPerPage page (env w) with
      | (Throw e, env') => (Throw e, send (SearchRepos repoQuery repoPerPage page) env' w)
      | (Normal items, env') =>
          fetchRepoPages repoQuery repoPages repoPerPage verbose todo' (S page)
            (repos ++ items) (send (SearchRepos repoQuery repoPerPage page) env' w)
      end
  end.

(** [fetchRepos(repoQuery, repoPages, repoPerPage, cacheFile, verbose)]. *)
Definition fetchRepos (repoQuery : string) (repoPages repoPerPage : nat)
    (cacheFile : option string) (verbose : bool) (w : World Env)
  : completion (list Repo) * World Env :=
  let cached :=
    if Js.truthy cacheFile then
      match disk w !! default "" cacheFile with
      | Some cache =>
          if bool_decide (query cache = repoQuery) && bool_decide (repoPages ≤ pages cache)%nat
             && bool_decide (perPage cache = repoPerPage)
          then Some cache else None
      | None => None
      end
    else None in
  match cached with
  | Some cache =>
      (Normal (repos cache),
       say verbose (Info ("Using cached repos for query: " +:+ repoQuery)) w)
  | None =>
      let w := say verbose (Info ("Fetching repos with query: " +:+ repoQuery +:+ ", pages: "
                                    +:+ pretty repoPages +:+ ", per page: "
                                    +:+ pretty repoPerPage)) w in
      match fetchRepoPages repoQuery repoPages repoPerPage verbose repoPages 1 [] w with
      | (Throw e, w) => (Throw e, w)
      | (Normal repos, w) =>
          let w :=
            if Js.truthy cacheFile then
              {| env := env w; requests := requests w;
                 disk := <[default "" cacheFile :=
                             {| query := repoQuery; pages := repoPages;
                                perPage := repoPerPage; repos := repos |}]> (disk w);
                 lines := lines w |}
            else w in
          (Normal repos,
           say verbose (Info ("Fetched " +:+ pretty (length repos) +:+ " repos")) w)
      end
  end.

(** A word between double quotes. *)
Definition quoted (word : string) : string :=
  String "034"%char word +:+ String "034"%char EmptyString.

(** The issues collected so far and the URLs seen. *)
Record Collected : Type := { results : list FindResult; seen : gset string }.

(** [for (const edge of edges) { ... }]: an issue is kept when its URL has
    not been seen. *)
Fixpoint collect (fullName : string) (stars : Z) (edges : list IssueNode) (c : Collected)
  : Collected :=
  match edges with
  | [] => c
  | issue :: rest =>
      let entry :=
        {| title := node_title issue; url := node_url issue; repo := fullName;
           stars := stars; comments := node_comments issue;
           reactions := node_reactions issue;
           created := String.substring 0 10 (node_createdAt issue) |} in
      collect fullName stars rest
        (if bool_decide (url entry ∈ seen c) then c
         else {| results := results c ++ [entry]; seen := {[url entry]} ∪ seen c |})
  end.

(** The loop [for (let page = 1; page <= issuePages; page++)] over the
    pages of one repository, with [todo] pages to go. *)
Fixpoint fetchIssuePages (fullName : string) (stars : Z) (searchQuery : string)
    (issuePerPage : nat) (verbose : bool) (todo page : nat) (after : option string)
    (c : Collected) (w : World Env) : completion Collected * World Env :=
  match todo with
  | O => (Normal c, w)
  | S todo' =>
      let w := say verbose (Info ("  Fetching issues page " +:+ pretty page +:+ " for "
                                    +:+ fullName +:+ "...")) w in
      match graphql searchQuery issuePerPage after (env w) with
      | (Throw e, env') => (Throw e, send (SearchIssues searchQuery issuePerPage after) env' w)
      | (Normal data, env') =>
          let w := send (SearchIssues searchQuery issuePerPage after) env' w in
          let w := say verbose (Info ("  Found " +:+ pretty (length (edges data))
                                        +:+ " issues on this page")) w in
          let c := collect fullName stars (edges data) c in
          if negb (hasNextPage data) then (Normal c, w)
          else fetchIssuePages fullName stars searchQuery issuePerPage verbose
                 todo' (S page) (endCursor data) c w
      end
  end.

(** The loop [for (let i = 0; i < repos.length; i++)] of [fetchIssues],
    from repository [i] on; [total] is [repos.length]. *)
Fixpoint fetchIssuesFrom (cutoff : string) (issuePages issuePerPage : nat) (verbose : bool)
    (total i : nat) (repos : list Repo) (c : Collected) (w : World Env)
  : completion Collected * World Env :=
  match repos with
  | [] => (Normal c, w)
  | repo :: rest =>
      let w := say verbose (Info ("[" +:+ pretty (i + 1)%nat +:+ "/" +:+ pretty total
                                    +:+ "] Processing repo: " +:+ full_name repo)) w in
      let fullName := full_name repo in
      let stars := stargazers_count repo in
      let searchQuery :=
        "repo:" +:+ fullName +:+ " (" +:+ quoted "flaky" +:+ " OR " +:+ quoted "flakey"
          +:+ " OR " +:+ quoted "intermittent" +:+ ") created:>"
          +:+ cutoff +:+ " is:issue is:open" in
      match fetchIssuePages fullName stars searchQuery issuePerPage verbose
              issuePages 1 None c w with
      | (Throw e, w) => (Throw e, w)
      | (Normal c, w) =>
          fetchIssuesFrom cutoff issuePages issuePerPage verbose total (S i) rest c w
      end
  end.

(** [fetchIssues(repos, cutoff, issuePages, issuePerPage, verbose)]. *)
Definition fetchIssues (repos : list Repo) (cutoff : string) (issuePages issuePerPage : nat)
    (verbose : bool) (w : World Env) : completion (list FindResult) * World Env :=
  let w := say verbose (Info ("Processing " +:+ pretty (length repos)
                                +:+ " repos for issues...")) w in
  match fetchIssuesFrom cutoff issuePages issuePerPage verbose (length repos) 0 repos
          {| results := []; seen := ∅ |} w with
  | (Throw e, w) => (Throw e, w)
  | (Normal c, w) =>
      (Normal (results c),
       say verbose (Console ("Total issues collected: " +:+ pretty (length (results c)))) w)
  end.

End Fetch.

End Find.

(** *** Scripted collaborators

    Stand-ins for the collaborators, as the test-suite mocks them: each
    answers from a queue of prepared responses. *)

Module Scripted.

(** A backend that answers the requests in turn from a queue, and fails
    when the queue is empty.  The prepared file contents are served as
    they are (the decoder is the identity). *)
#[global] Instance octokit : Explore.Octokit (list (completion Explore.ContentData)) := {
  Explore.getContent _ _ _ queue :=
    match queue with
    | [] => (Throw (Js.new_Error "no response prepared"), [])
    | response :: queue' => (response, queue')
    end;
  Explore.decodeBase64 content := content
}.

(** A process with no explorer and the given queue of responses. *)
Definition process (queue : list (completion Explore.ContentData))
  : Explore.Process (list (completion Explore.ContentData)) :=
  {| Explore.world := {| Explore.env := queue; Explore.apiCalls := [] |};
     Explore.explorers := [] |}.

Definition notFound : Js.error := {| Js.status := Some 404%Z; Js.message := "Not Found" |}.

Definition serverError : Js.error :=
  {| Js.status := Some 500%Z; Js.message := "Internal Server Error" |}.

Definition file (content : string) : completion Explore.ContentData :=
  Normal (Explore.DataObject "file" (Some content)).

(** A host whose clock ticks once per reading, whose [git] checks out one
    file, and whose container runtime builds every image without a failed
    step, keeps the images it built, and numbers its containers. *)
Record Machine : Type := {
  clock : N;
  images : list string;
  containers : nat
}.

#[global] Instance os : TmpDir.Os Machine := {
  TmpDir.tmpdir := "/tmp";
  TmpDir.now_random m :=
    ((pretty (clock m), "k3x9q2a"),
     {| clock := N.succ (clock m); images := images m; containers := containers m |})
}.

#[global] Instance docker : Docker.Runtime Machine := {
  Docker.git_clone _ _ m := (Normal [("README.md", "No code")], m);
  Docker.docker_buildImage _ tag m :=
    (Normal (Docker.ProgressDone [ {| Docker.errorDetail := None; Docker.error := None |} ]),
     {| clock := clock m; images := tag :: images m; containers := containers m |});
  Docker.image_inspect imageName m :=
    (if bool_decide (imageName ∈ images m) then Normal ()
     else Throw (Js.new_Error ("No such image: " +:+ imageName)), m);
  Docker.docker_createContainer _ _ m :=
    (Normal ("container-" +:+ pretty (containers m)),
     {| clock := clock m; images := images m; containers := S (containers m) |});
  Docker.container_start _ m := (Normal (), m)
}.

(** A model that answers the turns in order from a queue, and answers
    with neither text nor tool calls when the queue is empty. *)
#[global] Instance models : GenAI.Models (list (completion GenAI.GenerateContentResponse)) := {
  GenAI.generateContent _ queue :=
    match queue with
    | [] => (Normal {| GenAI.text := None; GenAI.functionCalls := None |}, [])
    | response :: queue' => (response, queue')
    end
}.

(** A turn of the model with the given tool-call requests. *)
Definition turn (calls : list GenAI.FunctionCall) : completion GenAI.GenerateContentResponse :=
  Normal {| GenAI.text := None; GenAI.functionCalls := Some calls |}.

Definition request (name : string) (args : list (string * Js.value)) : GenAI.FunctionCall :=
  {| GenAI.name := Some name; GenAI.args := args |}.

(** Tools that do not touch the world: reading a file succeeds, every
    other tool throws. *)
Definition reproducerTools {W : Type} : Reproducer.Tools W :=
  {| Reproducer.readFile := λ _ w, (Normal (Js.Str "{}"), w);
     Reproducer.listDir := λ _ w, (Throw (Js.new_Error "Directory not found: src"), w);
     Reproducer.buildImage := λ _ w, (Throw (Js.new_Error "Docker build failed"), w);
     Reproducer.createContainer := λ _ w, (Throw (Js.new_Error "No such image"), w);
     Reproducer.executeCommand := λ _ w,
       (Throw (Js.new_Error "No container has been created yet. Call createContainer first."), w) |}.

Definition filtererTools {W : Type} : Filterer.Tools W :=
  {| Filterer.readFile := λ _ w, (Normal (Js.Str "{}"), w);
     Filterer.listDir := λ _ w, (Throw (Js.new_Error "Directory not found: src"), w) |}.

(** Containers of this machine are found stopped; a command prints two
    frames, each behind the eight bytes of its header. *)
#[global] Instance exec : Docker.Exec Machine := {
  Docker.container_inspect _ m := (Normal false, m);
  Docker.container_exec _ _ m := (Normal ["HEADER00Line 1"; "HEADER01Line 2"], m)
}.

(** A host without network and without container runtime: [git] and
    every request to the runtime fail. *)
Record Offline : Type := { ticks : N }.

#[global] Instance offline_os : TmpDir.Os Offline := {
  TmpDir.tmpdir := "/tmp";
  TmpDir.now_random m := ((pretty (ticks m), "k3x9q2a"), {| ticks := N.succ (ticks m) |})
}.

#[global] Instance offline_docker : Docker.Runtime Offline := {
  Docker.git_clone _ _ m := (Throw (Js.new_Error "Command failed: git clone"), m);
  Docker.docker_buildImage _ _ m :=
    (Throw (Js.new_Error "connect ENOENT /var/run/docker.sock"), m);
  Docker.image_inspect _ m := (Throw (Js.new_Error "connect ENOENT /var/run/docker.sock"), m);
  Docker.docker_createContainer _ _ m :=
    (Throw (Js.new_Error "connect ENOENT /var/run/docker.sock"), m);
  Docker.container_start _ m := (Throw (Js.new_Error "connect ENOENT /var/run/docker.sock"), m)
}.

Definition offlineHost : Docker.Host Offline :=
  {| Docker.env := {| ticks := 1700000000000%N |};
     Docker.fs := {| TmpDir.directories := ∅; TmpDir.files := ∅ |};
     Docker.tmpDirManager := {| TmpDir.dirs := ∅ |};
     Docker.trace := [] |}.

Definition host : Docker.Host Machine :=
  {| Docker.env := {| clock := 1700000000000%N; images := []; containers := 0 |};
     Docker.fs := {| TmpDir.directories := ∅; TmpDir.files := ∅ |};
     Docker.tmpDirManager := {| TmpDir.dirs := ∅ |};
     Docker.trace := [] |}.

(** A search API that answers the repository pages and the issue pages in
    turn from two queues, and fails when the queue is empty. *)
Record Catalogue : Type := {
  repoAnswers : list (list Find.Repo);
  issueAnswers : list Find.SearchPage
}.

#[global] Instance search : Find.Search Catalogue := {
  Find.search_repos _ _ _ c :=
    match repoAnswers c with
    | [] => (Throw (Js.new_Error "API rate limit exceeded"), c)
    | items :: rest => (Normal items, {| repoAnswers := rest; issueAnswers := issueAnswers c |})
    end;
  Find.graphql _ _ _ c :=
    match issueAnswers c with
    | [] => (Throw (Js.new_Error "API rate limit exceeded"), c)
    | page :: rest => (Normal page, {| repoAnswers := repoAnswers c; issueAnswers := rest |})
    end
}.

Definition catalogue (repoAnswers : list (list Find.Repo)) (issueAnswers : list Find.SearchPage)
  : Find.World Catalogue :=
  {| Find.env := {| repoAnswers := repoAnswers; issueAnswers := issueAnswers |};
     Find.requests := []; Find.disk := ∅; Find.lines := [] |}.

End Scripted.

(** ** Part II: the properties *)

(** *** The repository explorer *)

Module ExploreFacts.
Import Explore.

Section Facts.
Context {Env : Type} `{!Octokit Env}.

(** The cache key of a tool for a path, and the path it asks the backend
    for. *)
Definition cacheKey (t : Tool) (e : Explorer) (path : string) : string :=
  match t with
  | ReadFile => fileKey e path
  | ListDir => dirKey e path
  end.

Definition requestPath (t : Tool) (path : string) : string :=
  match t with
  | ReadFile => path
  | ListDir => if bool_decide (path = ".") then "" else path
  end.

(** [e'] is [e] later in the run: the same repository, and every entry of
    the cache of [e] still there. *)
Definition extends (e e' : Explorer) : Prop :=
  repoFullName e' = repoFullName e ∧ owner e' = owner e ∧ repo e' = repo e ∧
  ∀ k v, repoCache e !! k = Some v → repoCache e' !! k = Some v.

Lemma extends_refl e : extends e e.
Proof. by repeat split. Qed.

Lemma extends_trans e1 e2 e3 : extends e1 e2 → extends e2 e3 → extends e1 e3.
Proof.
  intros (?&?&?&H12) (?&?&?&H23). repeat split; try congruence. auto.
Qed.

Lemma extends_insert e k v :
  repoCache e !! k = None → extends e (set_repoCache (<[k := v]> (repoCache e)) e).
Proof.
  intros Hk. repeat split; try done. simpl. intros k' v' Hk'.
  rewrite lookup_insert_ne; [done | congruence].
Qed.

(** A call that finds its key in the cache answers from it and touches
    nothing. *)
Lemma implementation_hit t path e w v :
  repoCache e !! cacheKey t e path = Some v →
  implementation t path e w = (Normal v, e, w).
Proof.
  intros Hv. destruct t; simpl in *; unfold readFile, listDir; by rewrite Hv.
Qed.

(** A call that misses sends exactly one request. *)
Lemma implementation_miss t path e w :
  repoCache e !! cacheKey t e path = None →
  ∃ r e' w', implementation t path e w = (r, e', w') ∧
    apiCalls w' = apiCalls w ++
      [ {| call_owner := owner e; call_repo := repo e; call_path := requestPath t path |} ].
Proof.
  intros Hk. destruct t; simpl in *; unfold readFile, listDir, request; rewrite Hk;
    destruct (getContent _ _ _ _) as [[[ents|ty [c|]]|err] env'];
    repeat case_bool_decide; simpl; eauto.
Qed.

(** What a call leaves behind: on success the answer is in the cache, on
    failure the instance is as before. *)
Lemma implementation_outcome t path e w r e' w' :
  implementation t path e w = (r, e', w') →
  extends e e' ∧
  match r with
  | Normal v => repoCache e' !! cacheKey t e' path = Some v
  | Throw _ => e' = e ∧ repoCache e !! cacheKey t e path = None
  end.
Proof.
  destruct t; simpl; unfold readFile, listDir, request;
    destruct (repoCache e !! _) as [cached|] eqn:Hk.
  - intros [= <- <- <-]. split; [apply extends_refl | done].
  - destruct (getContent _ _ _ _) as [[[ents|ty [c|]]|err] env'];
      repeat case_bool_decide; intros [= <- <- <-];
      (split; [first [apply extends_refl | by apply extends_insert] | ]);
      simpl; try done.
    unfold fileKey; simpl. by rewrite lookup_insert_eq.
  - intros [= <- <- <-]. split; [apply extends_refl | done].
  - destruct (getContent _ _ _ _) as [[[ents|ty c]|err] env'];
      repeat case_bool_decide; intros [= <- <- <-];
      (split; [first [apply extends_refl | by apply extends_insert] | ]);
      simpl; try done;
      unfold dirKey; simpl; by rewrite lookup_insert_eq.
Qed.

Lemma cacheKey_extends t e e' path : extends e e' → cacheKey t e' path = cacheKey t e path.
Proof. intros (Hn&_). destruct t; simpl; unfold fileKey, dirKey; by rewrite Hn. Qed.

(** Every step of a run keeps the instances that exist, and extends them. *)
Lemma step_extends o (p : Process Env) i e :
  explorers p !! i = Some e →
  ∃ e', explorers (step o p) !! i = Some e' ∧ extends e e'.
Proof.
  intros Hi. destruct o as [name | self t path]; simpl.
  - unfold create. destruct (createExploreFunctions name); simpl.
    + exists e. split; [by apply lookup_app_l_Some | apply extends_refl].
    + exists e. split; [done | apply extends_refl].
  - unfold call. destruct (explorers p !! self) as [es|] eqn:Hs; simpl.
    + destruct (implementation t path es (world p)) as [[r es'] w'] eqn:Himpl; simpl.
      destruct (decide (self = i)) as [-> | Hne].
      * exists es'. split.
        -- apply list_lookup_insert_eq. by eapply lookup_lt_Some.
        -- pose proof (implementation_outcome _ _ _ _ _ _ _ Himpl) as [Hext _].
           congruence.
      * exists e. split; [by rewrite list_lookup_insert_ne | apply extends_refl].
    + exists e. split; [done | apply extends_refl].
Qed.

Lemma run_extends ops (p : Process Env) i e :
  explorers p !! i = Some e →
  ∃ e', explorers (run ops p) !! i = Some e' ∧ extends e e'.
Proof.
  revert p e. induction ops as [|o ops IH]; intros p e Hi; simpl.
  - exists e. split; [done | apply extends_refl].
  - destruct (step_extends o p i e Hi) as (e1 & H1 & Hext1).
    destruct (IH _ _ H1) as (e2 & H2 & Hext2).
    exists e2. split; [done | by eapply extends_trans].
Qed.

Lemma call_inv self t path (p : Process Env) r p1 :
  call self t path p = Some (r, p1) →
  ∃ e e', explorers p !! self = Some e ∧
    implementation t path e (world p) = (r, e', world p1) ∧
    explorers p1 = <[self := e']> (explorers p).
Proof.
  unfold call. destruct (explorers p !! self) as [e|]; [|done].
  destruct (implementation t path e (world p)) as [[r' e'] w'] eqn:Himpl.
  intros [= <- <-]. by exists e, e'.
Qed.

(** C5, as amended.  Once a call of read-file or list-directory for a path
    has succeeded on an instance (sending at most one request to the
    backing API), every later call of the same tool with the same path on
    that instance, whatever the process did in between, returns the
    identical result and leaves the whole process as it is: no request is
    sent to the backing API. *)
Theorem repeated_call_served_from_cache (p : Process Env) self t path v p1 :
  call self t path p = Some (Normal v, p1) →
  (∃ sent, apiCalls (world p1) = apiCalls (world p) ++ sent ∧ (length sent ≤ 1)%nat) ∧
  ∀ ops, call self t path (run ops p1) = Some (Normal v, run ops p1).
Proof.
  intros Hcall. destruct (call_inv _ _ _ _ _ _ Hcall) as (e & e' & He & Himpl & Hp1).
  pose proof (implementation_outcome _ _ _ _ _ _ _ Himpl) as [Hext Hv].
  split.
  - destruct (repoCache e !! cacheKey t e path) as [c|] eqn:Hk.
    + rewrite (implementation_hit _ _ _ _ _ Hk) in Himpl.
      assert (world p1 = world p) as -> by congruence.
      exists []. split; [by rewrite app_nil_r | simpl; lia].
    + destruct (implementation_miss t path e (world p) Hk) as (r & e2 & w2 & Himpl2 & Hsent).
      assert (world p1 = w2) as -> by congruence.
      eexists. split; [exact Hsent | simpl; lia].
  - intros ops.
    assert (explorers p1 !! self = Some e') as He'.
    { rewrite Hp1. apply list_lookup_insert_eq. by eapply lookup_lt_Some. }
    destruct (run_extends ops p1 self e' He') as (e2 & He2 & Hext2).
    unfold call. rewrite He2.
    rewrite (implementation_hit t path e2 _ v).
    + rewrite list_insert_id by done. by destruct (run ops p1).
    + rewrite (cacheKey_extends _ _ _ _ Hext2). by apply Hext2.
Qed.

(** C6.  When the cache has no entry for the path and the backend request
    fails, read-file throws exactly "File not found: <path>" for a 404
    status and "Failed to read file <path>: <underlying message>" for any
    other failure; list-directory throws "Directory not found: <path>" and
    "Failed to list directory <path>: <underlying message>".  The instance
    is left as it was. *)
Theorem backend_failure_message (t : Tool) (path : string) (e : Explorer) (w : World Env)
    (failure : Js.error) (env' : Env) :
  repoCache e !! cacheKey t e path = None →
  getContent (owner e) (repo e) (requestPath t path) (env w) = (Throw failure, env') →
  implementation t path e w =
    (Throw (Js.new_Error
       match t, bool_decide (Js.status failure = Some 404%Z) with
       | ReadFile, true => "File not found: " +:+ path
       | ReadFile, false => "Failed to read file " +:+ path +:+ ": " +:+ Js.message failure
       | ListDir, true => "Directory not found: " +:+ path
       | ListDir, false => "Failed to list directory " +:+ path +:+ ": " +:+ Js.message failure
       end),
     e,
     {| env := env';
        apiCalls := apiCalls w ++
          [ {| call_owner := owner e; call_repo := repo e; call_path := requestPath t path |} ] |}).
Proof.
  intros Hk Hget. destruct t; simpl in *; unfold readFile, listDir, request;
    rewrite Hk, Hget; simpl;
    by destruct (bool_decide (Js.status failure = Some 404%Z)).
Qed.

(** C7.  A call on one instance never modifies another instance, and never
    reads one: its outcome is the same in every process that agrees on the
    called instance and on the backend.  So a call with the same path on
    another instance that has not fetched the path is not answered from the
    first one's cache: it sends its own request, for its own owner and
    repository, and gets what the backend answers to that. *)
Theorem instances_do_not_share_cache (p : Process Env) i j t path r p1 :
  i ≠ j →
  call i t path p = Some (r, p1) →
  explorers p1 !! j = explorers p !! j ∧
  (∀ q : Process Env,
      explorers q !! i = explorers p !! i → world q = world p →
      ∃ q1, call i t path q = Some (r, q1) ∧ world q1 = world p1 ∧
            explorers q1 !! i = explorers p1 !! i) ∧
  (∀ e_j, explorers p !! j = Some e_j →
      repoCache e_j !! cacheKey t e_j path = None →
      ∃ r' e_j' p2,
        implementation t path e_j (world p1) = (r', e_j', world p2) ∧
        call j t path p1 = Some (r', p2) ∧
        explorers p2 !! i = explorers p1 !! i ∧
        apiCalls (world p2) = apiCalls (world p1) ++
          [ {| call_owner := owner e_j; call_repo := repo e_j;
               call_path := requestPath t path |} ]).
Proof.
  intros Hij Hcall. destruct (call_inv _ _ _ _ _ _ Hcall) as (e & e' & He & Himpl & Hp1).
  assert (explorers p1 !! j = explorers p !! j) as Hframe.
  { rewrite Hp1. by apply list_lookup_insert_ne. }
  split; [done | split].
  - intros q Hq Hw. unfold call. rewrite Hq, He, Hw, Himpl.
    eexists. split; [done | simpl; split; [done |]].
    rewrite Hp1. rewrite !list_lookup_insert_eq; [done | |].
    + by eapply lookup_lt_Some.
    + eapply lookup_lt_Some. by rewrite Hq.
  - intros e_j Hj Hmiss.
    destruct (implementation_miss t path e_j (world p1) Hmiss) as (r' & e_j' & w' & Himpl' & Hsent).
    exists r', e_j', {| world := w'; explorers := <[j := e_j']> (explorers p1) |}.
    repeat split; simpl; try done.
    + unfold call. by rewrite Hframe, Hj, Himpl'.
    + by apply list_lookup_insert_ne.
Qed.

(** C10.  A call of read-file or list-directory that throws leaves every
    instance of the process, and so every cache, as it was; the next call
    with the same path on the same instance sends a request to the backing
    API again. *)
Theorem failed_call_is_not_cached (p : Process Env) self t path failure p1 :
  call self t path p = Some (Throw failure, p1) →
  explorers p1 = explorers p ∧
  ∃ e r2 p2,
    explorers p !! self = Some e ∧
    call self t path p1 = Some (r2, p2) ∧
    apiCalls (world p2) = apiCalls (world p1) ++
      [ {| call_owner := owner e; call_repo := repo e; call_path := requestPath t path |} ].
Proof.
  intros Hcall. destruct (call_inv _ _ _ _ _ _ Hcall) as (e & e' & He & Himpl & Hp1).
  pose proof (implementation_outcome _ _ _ _ _ _ _ Himpl) as [_ [-> Hmiss]].
  assert (explorers p1 = explorers p) as Hsame.
  { rewrite Hp1. by apply list_insert_id. }
  split; [done |].
  destruct (implementation_miss t path e (world p1) Hmiss) as (r2 & e2 & w2 & Himpl2 & Hsent).
  exists e, r2, {| world := w2; explorers := <[self := e2]> (explorers p1) |}.
  repeat split; try done.
  unfold call. by rewrite Hsame, He, Himpl2.
Qed.

End Facts.

(** **** The properties at work on scripted backends *)

Definition testRepo : Explorer :=
  {| repoFullName := "test-owner/test-repo"; owner := "test-owner"; repo := "test-repo";
     repoCache := ∅ |}.

Example createExploreFunctions_valid :
  createExploreFunctions "test-owner/test-repo" = Normal testRepo.
Proof. reflexivity. Qed.

Example createExploreFunctions_invalid :
  createExploreFunctions "invalid-repo"
  = Throw (Js.new_Error "Invalid repository name format: invalid-repo. Expected 'owner/repo'")
  ∧ createExploreFunctions ""
  = Throw (Js.new_Error "Invalid repository name format: . Expected 'owner/repo'").
Proof. split; reflexivity. Qed.

(** One instance and a backend that serves one file. *)
Definition servesOnce : Process (list (completion ContentData)) :=
  step (Create "test-owner/test-repo") (Scripted.process [Scripted.file "Cached content"]).

Lemma repeated_call_served_from_cache_witness :
  let p1 := step (Call 0 ReadFile "package.json") servesOnce in
  (∃ sent, apiCalls (world p1) = apiCalls (world servesOnce) ++ sent ∧ (length sent ≤ 1)%nat) ∧
  ∀ ops, call 0 ReadFile "package.json" (run ops p1)
         = Some (Normal (Text "Cached content"), run ops p1).
Proof.
  apply (repeated_call_served_from_cache servesOnce 0 ReadFile "package.json").
  vm_compute. reflexivity.
Defined.

(** One instance and a backend that answers 404 twice. *)
Definition answers404 : Process (list (completion ContentData)) :=
  step (Create "test-owner/test-repo")
       (Scripted.process [Throw Scripted.notFound; Throw Scripted.notFound]).

(** C5 as stated fails: when the backend answers 404, every one of two
    calls of read-file with the same path on one instance sends a request,
    so the backing API is invoked twice. *)
Lemma repeated_failing_call_asks_backend_again :
  ¬ (∀ (Env : Type) (backend : Octokit Env) (p : Process Env) self t path r1 p1 r2 p2,
        call self t path p = Some (r1, p1) →
        call self t path p1 = Some (r2, p2) →
        r2 = r1 ∧ (length (apiCalls (world p2)) ≤ S (length (apiCalls (world p))))%nat).
Proof.
  intros claim.
  destruct (call 0 ReadFile "nonexistent.md" answers404) as [[r1 p1]|] eqn:E1;
    vm_compute in E1; [|discriminate].
  injection E1 as <- <-.
  specialize (claim _ Scripted.octokit answers404 0%nat ReadFile "nonexistent.md").
  destruct (call 0 ReadFile "nonexistent.md"
              (step (Call 0 ReadFile "nonexistent.md") answers404)) as [[r2 p2]|] eqn:E2;
    vm_compute in E2; [|discriminate].
  injection E2 as <- <-.
  edestruct claim as [_ Hle].
  - vm_compute. reflexivity.
  - vm_compute. reflexivity.
  - vm_compute in Hle. lia.
Qed.

Lemma backend_failure_message_witness :
  implementation ReadFile "test.md" testRepo
    {| env := [Throw Scripted.serverError]; apiCalls := [] |}
  = (Throw (Js.new_Error "Failed to read file test.md: Internal Server Error"),
     testRepo,
     {| env := [];
        apiCalls := [ {| call_owner := "test-owner"; call_repo := "test-repo";
                         call_path := "test.md" |} ] |}).
Proof.
  exact (backend_failure_message ReadFile "test.md" testRepo
           {| env := [Throw Scripted.serverError]; apiCalls := [] |}
           Scripted.serverError [] eq_refl eq_refl).
Defined.

Example not_found_messages :
  (implementation ReadFile "nonexistent.md" testRepo
     {| env := [Throw Scripted.notFound]; apiCalls := [] |}).1.1
  = Throw (Js.new_Error "File not found: nonexistent.md")
  ∧ (implementation ListDir "nonexistent" testRepo
       {| env := [Throw Scripted.notFound]; apiCalls := [] |}).1.1
  = Throw (Js.new_Error "Directory not found: nonexistent").
Proof. split; reflexivity. Qed.

(** Two instances for two repositories and a backend that serves one file
    to each. *)
Definition twoRepositories : Process (list (completion ContentData)) :=
  step (Create "repo2/owner2")
    (step (Create "repo1/owner1")
       (Scripted.process [Scripted.file "Content from repo1";
                          Scripted.file "Content from repo2"])).

Example separate_caches_for_different_repositories :
  let p1 := step (Call 0 ReadFile "shared.txt") twoRepositories in
  let p2 := step (Call 1 ReadFile "shared.txt") p1 in
  call 0 ReadFile "shared.txt" twoRepositories
  = Some (Normal (Text "Content from repo1"), p1)
  ∧ call 1 ReadFile "shared.txt" p1 = Some (Normal (Text "Content from repo2"), p2)
  ∧ apiCalls (world p2)
    = [ {| call_owner := "repo1"; call_repo := "owner1"; call_path := "shared.txt" |};
        {| call_owner := "repo2"; call_repo := "owner2"; call_path := "shared.txt" |} ].
Proof. vm_compute. repeat split. Qed.

Lemma instances_do_not_share_cache_witness :
  let p := twoRepositories in
  let p1 := step (Call 0 ReadFile "shared.txt") p in
  explorers p1 !! 1%nat = explorers p !! 1%nat ∧
  ∃ r' e' p2,
    implementation ReadFile "shared.txt"
      {| repoFullName := "repo2/owner2"; owner := "repo2"; repo := "owner2"; repoCache := ∅ |}
      (world p1) = (r', e', world p2) ∧
    call 1 ReadFile "shared.txt" p1 = Some (r', p2) ∧
    explorers p2 !! 0%nat = explorers p1 !! 0%nat ∧
    apiCalls (world p2) = apiCalls (world p1) ++
      [ {| call_owner := "repo2"; call_repo := "owner2"; call_path := "shared.txt" |} ].
Proof.
  intros p p1.
  destruct (instances_do_not_share_cache p 0 1 ReadFile "shared.txt"
              (Normal (Text "Content from repo1")) p1) as (Hframe & _ & Hother).
  - discriminate.
  - vm_compute. reflexivity.
  - split; [exact Hframe |].
    apply (Hother _ eq_refl eq_refl).
Defined.

(** One instance and a backend that answers 404, then serves the file. *)
Definition failsThenServes : Process (list (completion ContentData)) :=
  step (Create "test-owner/test-repo")
       (Scripted.process [Throw Scripted.notFound; Scripted.file "late"]).

Lemma failed_call_is_not_cached_witness :
  let p1 := step (Call 0 ReadFile "late.md") failsThenServes in
  explorers p1 = explorers failsThenServes ∧
  ∃ e r2 p2,
    explorers failsThenServes !! 0%nat = Some e ∧
    call 0 ReadFile "late.md" p1 = Some (r2, p2) ∧
    apiCalls (world p2) = apiCalls (world p1) ++
      [ {| call_owner := owner e; call_repo := repo e; call_path := "late.md" |} ].
Proof.
  apply (failed_call_is_not_cached failsThenServes 0 ReadFile "late.md"
           (Js.new_Error "File not found: late.md")).
  vm_compute. reflexivity.
Defined.

Example failure_then_success :
  let p1 := step (Call 0 ReadFile "late.md") failsThenServes in
  (fst <$> call 0 ReadFile "late.md" failsThenServes)
  = Some (Throw (Js.new_Error "File not found: late.md"))
  ∧ (fst <$> call 0 ReadFile "late.md" p1) = Some (Normal (Text "late")).
Proof. vm_compute. split; reflexivity. Qed.

End ExploreFacts.


(** *** The container tools *)

Module DockerFacts.
Import TmpDir Docker.

Section Facts.
Context {Env : Type} `{!Os Env} `{!Runtime Env}.





(** The errors of a build that failed: the stream ends with an error, or a
    step of the stream carries one. *)
Lemma buildAndVerify_failed_build (contextDir imageName : string) (h : Host Env)
    (progress : BuildProgress) (env' : Env) :
  docker_buildImage
    [("Dockerfile", files (fs h) !! join contextDir "Dockerfile")] imageName (env h)
    = (Normal progress, env') →
  match progress with
  | ProgressError err =>
      (buildAndVerify contextDir imageName h).1
      = Throw (Js.new_Error ("Docker build failed: " +:+ Js.message err))
  | ProgressDone buildResult =>
      ∀ firstError rest,
        filter (λ step, stepFailed step = true) buildResult = firstError :: rest →
        (buildAndVerify contextDir imageName h).1
        = Throw (Js.new_Error ("Docker build failed: " +:+ stepMessage firstError))
  end.
Proof.
  intros Hbuild. unfold buildAndVerify. simpl. rewrite Hbuild.
  destruct progress as [err | buildResult]; [done |].
  intros firstError rest Hfailed. by rewrite Hfailed.
Qed.

End Facts.


End DockerFacts.

(** *** Reading traces *)

Module TraceFacts.
Import GenAI Logger.

(** The model did not call the tool [finalize] in this turn: the backend
    answered, and none of the requested calls names [finalize]. *)
Definition withoutCallTo (finalize : string) (r : completion GenerateContentResponse) : Prop :=
  ∃ response, r = Normal response ∧
    Forall (λ call, name call ≠ Some finalize) (default [] (functionCalls response)).

(** The model requested at least one tool call in this turn. *)
Definition withToolCalls (r : completion GenerateContentResponse) : Prop :=
  ∃ response, r = Normal response ∧ default [] (functionCalls response) ≠ [].

Lemma responsesOf_snoc tr ev :
  responsesOf (tr ++ [ev])
  = responsesOf tr ++ match ev with ModelInvoked _ r => [r] | _ => [] end.
Proof. unfold responsesOf. rewrite omap_app. by destruct ev. Qed.

Lemma implementationsRun_snoc tr ev :
  implementationsRun (tr ++ [ev])
  = implementationsRun tr ++ match ev with ImplementationRun n _ => [n] | _ => [] end.
Proof. unfold implementationsRun. rewrite omap_app. by destruct ev. Qed.


Lemma warnings_snoc tr ev :
  warnings (tr ++ [ev])
  = warnings tr ++ match ev with Logged warn m => [m] | _ => [] end.
Proof. unfold warnings. rewrite omap_app. by destruct ev as [| |[] ?]. Qed.

(** [rt'] is [rt] after steps that neither invoke the model nor warn. *)
Definition quiet {W : Type} (rt rt' : Runtime W) : Prop :=
  responsesOf (trace rt') = responsesOf (trace rt) ∧
  warnings (trace rt') = warnings (trace rt).

Lemma quiet_refl {W : Type} (rt : Runtime W) : quiet rt rt.
Proof. by split. Qed.

Lemma quiet_trans {W : Type} (rt1 rt2 rt3 : Runtime W) :
  quiet rt1 rt2 → quiet rt2 rt3 → quiet rt1 rt3.
Proof. intros [? ?] [? ?]. split; congruence. Qed.

Lemma quiet_debug {W : Type} (rt : Runtime W) message : quiet rt (log debug message rt).
Proof.
  split; simpl; [rewrite responsesOf_snoc | rewrite warnings_snoc]; by rewrite app_nil_r.
Qed.

(** Dispatch through the registry invokes no model and logs no warning. *)
Lemma quiet_runAiFunction {W : Type} (func : gmap string (DefineAiFunction.AiFunction W))
    name args (rt : Runtime W) :
  quiet rt (DefineAiFunction.runAiFunction func name args rt).2.
Proof.
  unfold DefineAiFunction.runAiFunction. destruct (func !! name) as [f|]; [|apply quiet_refl].
  simpl. destruct (DefineAiFunction.implementation f args (world rt)) as [res w'].
  split; simpl; [rewrite responsesOf_snoc | rewrite warnings_snoc]; by rewrite app_nil_r.
Qed.

(** Proves that no turn of a given list calls the finalize tool. *)
Ltac turns_without_finalize :=
  match goal with
  | |- Forall _ ?l => let l' := eval vm_compute in l in change l with l'
  end;
  repeat (apply List.Forall_cons;
          [ eexists; split;
            [ reflexivity
            | simpl; repeat (apply List.Forall_cons; [discriminate |]); apply List.Forall_nil ]
          | ]);
  apply List.Forall_nil.

End TraceFacts.

(** *** The reproduction agent *)

Module ReproducerFacts.
Import GenAI Logger DefineAiFunction Reproducer TraceFacts.

Section Facts.
Context {W : Type} `{!Models W}.
Variable tools : Tools W.
Variable systemInstruction : string.

Lemma lookup_report : aiFunctionsMap tools !! "report" = Some report.
Proof. reflexivity. Qed.

(** A name that is not declared is not in the map. *)
Lemma lookup_undeclared name :
  name ∉ declarations tools → aiFunctionsMap tools !! name = None.
Proof.
  unfold declarations, aiFunctionsMap, fromEntries. simpl. intros Hname.
  rewrite !lookup_insert_ne, lookup_empty; [done | | | | | |];
    intros <-; apply Hname; set_solver.
Qed.

Lemma quiet_dispatch name args (rt : Runtime W) :
  quiet rt (dispatch tools name args rt).2.
Proof.
  unfold dispatch. destruct (negb (Js.truthy name)); simpl.
  - apply quiet_debug.
  - pose proof (quiet_runAiFunction (aiFunctionsMap tools) (default "" name) args rt) as Hq.
    destruct (runAiFunction _ _ _ _) as [[result|e] rt']; simpl in *.
    + eapply quiet_trans; [exact Hq | apply quiet_debug].
    + eapply quiet_trans; [exact Hq | apply quiet_debug].
Qed.

(** Processing a batch invokes no model and logs no warning; it ends the
    function exactly when the batch holds a call of the finalize tool. *)
Lemma processCalls_quiet calls (st : State W) :
  quiet (runtime st) (runtime (processCalls tools calls st).2).
Proof.
  revert st. induction calls as [|call rest IH]; intros st; simpl; [apply quiet_refl |].
  pose proof (quiet_dispatch (name call) (Js.Obj (args call))
                (log debug ("🔧 Agent calling tool: " +:+ Js.show (name call) +:+ " with args:")
                     (runtime st))) as Hq.
  destruct (dispatch _ _ _ _) as [[key result] rt]. simpl in Hq.
  assert (quiet (runtime st) rt) as Hrt.
  { eapply quiet_trans; [apply quiet_debug | exact Hq]. }
  case_bool_decide; simpl.
  - eapply quiet_trans; [exact Hrt | apply quiet_debug].
  - eapply quiet_trans; [exact Hrt |]. apply (IH {| runtime := rt |}).
Qed.

Lemma processCalls_without_report calls (st : State W) :
  Forall (λ call, name call ≠ Some "report") calls →
  (processCalls tools calls st).1 = Continue.
Proof.
  revert st. induction calls as [|call rest IH]; intros st Hcalls; simpl; [done |].
  inversion Hcalls as [|? ? Hcall Hrest]; subst.
  destruct (dispatch _ _ _ _) as [[key result] rt].
  rewrite bool_decide_eq_false_2 by done. apply IH, Hrest.
Qed.


Lemma processCalls_flow calls (st : State W) :
  (processCalls tools calls st).1 = Continue ∨ ∃ v, (processCalls tools calls st).1 = Return v.
Proof.
  revert st. induction calls as [|call rest IH]; intros st; simpl; [by left |].
  destruct (dispatch _ _ _ _) as [[key result] rt].
  case_bool_decide; simpl; [right; eauto | apply IH].
Qed.

(** The finalize call: it is dispatched through the registry, which runs
    the implementation that does nothing; its record goes to the call
    history; the conversation is left as it is; the function returns the
    call's arguments, whatever follows in the batch. *)
Lemma processCalls_report a rest (st : State W) :
  processCalls tools ({| name := Some "report"; args := a |} :: rest) st
  = (Return (Js.Obj a),
     {| runtime :=
          {| world := world (runtime st);
             trace := trace (runtime st) ++
               [ Logged debug "🔧 Agent calling tool: report with args:";
                 ImplementationRun "report" (Js.Obj a);
                 Logged debug "✅ Tool report completed successfully";
                 Logged debug ("Report called with status: "
                                 +:+ Js.to_string (Js.get "status" a)) ] |};
        contents := contents st;
        history := history st ++
          [ {| call_name := "report"; call_args := Js.Obj a;
               call_result := Js.Undefined; call_key := output |} ];
        responses := responses st |}).
Proof.
  simpl. unfold dispatch, runAiFunction. simpl. rewrite lookup_report. simpl.
  unfold log, emit. simpl. by rewrite <- !app_assoc.
Qed.

(** One request to the model adds its response to the trace, and no
    warning. *)
Lemma askModel_trace N i (st : State W) :
  responsesOf (trace (runtime (askModel tools systemInstruction N i st).2))
  = responsesOf (trace (runtime st)) ++ [(askModel tools systemInstruction N i st).1] ∧
  warnings (trace (runtime (askModel tools systemInstruction N i st).2))
  = warnings (trace (runtime st)).
Proof.
  unfold askModel. destruct (generateContent _ _) as [[response|e] w']; simpl.
  - destruct (Js.truthy (text response)); simpl;
      rewrite ?responsesOf_snoc, ?warnings_snoc; simpl; by rewrite ?app_nil_r.
  - by rewrite responsesOf_snoc, warnings_snoc, app_nil_r.
Qed.

(** The loop, read off the trace: it invokes the model at most once for
    every iteration it has to go and logs no warning; it throws only what
    the model backend threw; and while no turn calls the finalize tool it
    neither returns nor throws, and uses up all its iterations when every
    turn requests a tool call. *)
Lemma iterations_trace N todo i (st : State W) :
  ∃ rs,
    responsesOf (trace (runtime (iterations tools systemInstruction N todo i st).2))
    = responsesOf (trace (runtime st)) ++ rs ∧
    warnings (trace (runtime (iterations tools systemInstruction N todo i st).2))
    = warnings (trace (runtime st)) ∧
    (length rs ≤ todo)%nat ∧
    (∀ e, (iterations tools systemInstruction N todo i st).1 = Raise e → Throw e ∈ rs) ∧
    (Forall (withoutCallTo "report") rs →
       ((iterations tools systemInstruction N todo i st).1 = Continue ∨
        (iterations tools systemInstruction N todo i st).1 = Break) ∧
       (Forall withToolCalls rs → length rs = todo)).
Proof.
  revert i st. induction todo as [|todo IH]; intros i st; simpl.
  { exists []. rewrite app_nil_r. repeat split; try done. by left. }
  unfold iterationBody.
  destruct (askModel_trace N i st) as [Hresp Hwarn].
  destruct (askModel tools systemInstruction N i st) as [[response|e] st1]; simpl in *.
  - case_bool_decide as Hcalls.
    + (* a turn without tool calls: the loop is left *)
      exists [Normal response]. simpl.
      rewrite responsesOf_snoc, warnings_snoc, app_nil_r. simpl. rewrite app_nil_r.
      split; [done | split; [done | split; [lia | split; [done |]]]].
      intros _. split; [by right |].
      intros Hbusy. apply Forall_cons in Hbusy as [(r & Heq & Hne) _].
      injection Heq as <-. by destruct (default [] (functionCalls response)).
    + pose proof (processCalls_quiet (default [] (functionCalls response)) st1) as [Hq1 Hq2].
      pose proof (processCalls_without_report (default [] (functionCalls response)) st1) as Hflow.
      pose proof (processCalls_flow (default [] (functionCalls response)) st1) as Hshape.
      destruct (processCalls tools (default [] (functionCalls response)) st1)
        as [fl st2]; simpl in *.
      destruct fl as [| |v|e]; simpl.
      * (* the batch is done: on to the next iteration *)
        destruct (IH (S i) st2) as (rs & Hrs & Hws & Hlen & Hraise & Hquiet).
        exists (Normal response :: rs).
        rewrite Hrs, Hws, Hq1, Hq2, Hresp, Hwarn, <- app_assoc. simpl.
        split; [done | split; [done | split; [lia | split]]].
        -- intros e He. right. by apply Hraise.
        -- intros Hnever. apply Forall_cons in Hnever as [_ Hnever].
           destruct (Hquiet Hnever) as [Hfl Hall]. split; [done |].
           intros Hbusy. apply Forall_cons in Hbusy as [_ Hbusy].
           f_equal. by apply Hall.
      * destruct Hshape as [? | [? ?]]; done.
      * (* the finalize call was in the batch *)
        exists [Normal response]. rewrite Hq1, Hq2, Hresp, Hwarn. simpl.
        split; [done | split; [done | split; [lia | split; [done |]]]].
        intros Hnever. apply Forall_cons in Hnever as [(r & Heq & Hnone) _].
        injection Heq as <-. by specialize (Hflow Hnone).
      * destruct Hshape as [? | [? ?]]; done.
  - (* the model backend threw *)
    exists [Throw e]. rewrite Hresp, Hwarn. simpl.
    split; [done | split; [done | split; [lia | split]]].
    + intros e' [= <-]. apply list_elem_of_here.
    + intros Hnever. apply Forall_cons in Hnever as [(r & Hr & _) _]. done.
Qed.


(** The state in which [reproduceWithGemini] enters its loop. *)
Definition initialState (initialPrompt : string) (w : W) : State W :=
  {| runtime := {| world := w; trace := [] |};
     contents := [ {| role := "user"; parts := [text_part initialPrompt] |} ];
     history := []; responses := [] |}.

(** A run in which no turn calls the finalize tool is inconclusive: it
    returns a null result after logging the warning. *)
Lemma run_without_report (initialPrompt : string) (N : nat) (w : W) :
  let run := reproduceWithGemini tools systemInstruction initialPrompt N w in
  Forall (withoutCallTo "report") (responsesOf (trace run.2)) →
  (∃ result, run.1 = Normal result ∧ finalResult result = None) ∧
  warnings (trace run.2)
  = ["Reproducer agent exceeded max iterations without reporting a final result."].
Proof.
  intros run. subst run. unfold reproduceWithGemini.
  destruct (iterations_trace N N 0 (initialState initialPrompt w))
    as (rs & Hrs & Hws & _ & _ & Hquiet).
  fold (initialState initialPrompt w).
  destruct (iterations tools systemInstruction N N 0 (initialState initialPrompt w))
    as [fl st]; simpl in *.
  destruct fl as [| |v|e]; simpl; rewrite ?responsesOf_snoc, ?warnings_snoc, ?app_nil_r;
    simpl; rewrite Hrs, ?Hws; intros Hnever;
    destruct (Hquiet Hnever) as [[Hfl | Hfl] _]; try done; split; eauto.
Qed.

(** C1, as amended.  If the model never issues the finalize (report) call,
    the loop ends after at most N model invocations, never N+1, with a
    null result and after recording one warning; the invocations are
    exactly N when every turn of the model requests at least one tool call
    (a turn without tool calls ends the loop at once). *)
Theorem budget_exhausted_after_N_invocations (initialPrompt : string) (N : nat) (w : W) :
  let run := reproduceWithGemini tools systemInstruction initialPrompt N w in
  Forall (withoutCallTo "report") (responsesOf (trace run.2)) →
  (modelInvocations (trace run.2) ≤ N)%nat ∧
  (∃ result, run.1 = Normal result ∧ finalResult result = None) ∧
  warnings (trace run.2)
  = ["Reproducer agent exceeded max iterations without reporting a final result."] ∧
  (Forall withToolCalls (responsesOf (trace run.2)) → modelInvocations (trace run.2) = N).
Proof.
  intros run. subst run. unfold reproduceWithGemini, modelInvocations.
  destruct (iterations_trace N N 0 (initialState initialPrompt w))
    as (rs & Hrs & Hws & Hlen & _ & Hquiet).
  fold (initialState initialPrompt w).
  destruct (iterations tools systemInstruction N N 0 (initialState initialPrompt w))
    as [fl st]; simpl in *.
  (* by the flow in which the loop ended *)
  destruct fl as [| |v|e]; simpl; rewrite ?responsesOf_snoc, ?warnings_snoc, ?app_nil_r;
    simpl; rewrite Hrs, ?Hws; intros Hnever;
    destruct (Hquiet Hnever) as [[Hfl | Hfl] Hbusy]; try done;
    repeat split; try done; eauto.
Qed.



(** A call without a name is folded into the history in the same way,
    under the name [unknown]. *)
Lemma missing_name_is_folded_into_history (call : FunctionCall) (rest : list FunctionCall)
    (st : State W) :
  Js.truthy (name call) = false →
  processCalls tools (call :: rest) st
  = processCalls tools rest
      {| runtime :=
           log debug ("❌ Tool " +:+ Js.show (name call) +:+ " failed: Function call missing name")
             (log debug ("🔧 Agent calling tool: " +:+ Js.show (name call) +:+ " with args:")
                  (runtime st));
         contents := contents st ++
           [ {| role := "model";
                parts := [functionCall_part (name call) (Js.Obj (args call))] |};
             {| role := "user";
                parts := [functionResponse_part (name call) GenAI.error
                            (Js.Str "Error: Function call missing name")] |} ];
         history := history st ++
           [ {| call_name := "unknown"; call_args := Js.Obj (args call);
                call_result := Js.Str "Error: Function call missing name";
                call_key := GenAI.error |} ];
         responses := responses st |}.
Proof.
  intros Hname. simpl. unfold dispatch. rewrite Hname. simpl.
  rewrite bool_decide_eq_false_2.
  - f_equal. f_equal. f_equal. f_equal. f_equal.
    unfold Js.or_else. destruct (name call) as [n|]; [|done].
    simpl in Hname. by destruct (bool_decide (n = "")).
  - intros Heq. by rewrite Heq in Hname.
Qed.

End Facts.

(** **** The properties at work on a scripted model *)

(** Three turns, each asking to read a file. *)
Definition readsThrice : list (completion GenerateContentResponse) :=
  replicate 3 (Scripted.turn [Scripted.request "readFile" [("path", Js.Str "package.json")]]).

Lemma budget_exhausted_after_N_invocations_witness :
  let run := reproduceWithGemini Scripted.reproducerTools "" "" 3 readsThrice in
  (modelInvocations (trace run.2) ≤ 3)%nat ∧
  (∃ result, run.1 = Normal result ∧ finalResult result = None) ∧
  warnings (trace run.2)
  = ["Reproducer agent exceeded max iterations without reporting a final result."] ∧
  (Forall withToolCalls (responsesOf (trace run.2)) → modelInvocations (trace run.2) = 3%nat).
Proof.
  apply (budget_exhausted_after_N_invocations Scripted.reproducerTools "" "" 3 readsThrice).
  turns_without_finalize.
Defined.

Example three_turns_three_invocations :
  modelInvocations (trace (reproduceWithGemini Scripted.reproducerTools "" "" 3 readsThrice).2)
  = 3%nat.
Proof. reflexivity. Qed.

(** C1 as stated fails: a model that answers its first turn with no tool
    call never issues the finalize call, and the loop, configured for three
    iterations, ends after one model invocation. *)
Lemma turn_without_tool_call_ends_loop_early :
  ¬ (∀ (W : Type) (M : Models W) (tools : Tools W) systemInstruction initialPrompt N w,
        let run := reproduceWithGemini tools systemInstruction initialPrompt N w in
        Forall (withoutCallTo "report") (responsesOf (trace run.2)) →
        modelInvocations (trace run.2) = N).
Proof.
  intros claim.
  specialize (claim _ Scripted.models Scripted.reproducerTools "" "" 3%nat []).
  simpl in claim.
  assert (1 = 3)%nat as Habsurd; [|discriminate].
  apply claim. turns_without_finalize.
Qed.

(** One turn: a file is read, the report is made, a directory is asked
    for. *)
Definition reportsInTheMiddle : list FunctionCall :=
  [ Scripted.request "readFile" [("path", Js.Str "package.json")];
    Scripted.request "report" [("status", Js.Str "failure"); ("reason", Js.Str "no test")];
    Scripted.request "listDir" [("path", Js.Str "src")] ].


Example report_in_first_turn :
  (reproduceWithGemini Scripted.reproducerTools "" "" 50
     [Scripted.turn reportsInTheMiddle]).1
  = Normal
      {| finalResult :=
           Some (Js.Obj [("status", Js.Str "failure"); ("reason", Js.Str "no test")]);
         functionCallHistory :=
           [ {| call_name := "readFile"; call_args := Js.Obj [("path", Js.Str "package.json")];
                call_result := Js.Str "{}"; call_key := output |};
             {| call_name := "report";
                call_args :=
                  Js.Obj [("status", Js.Str "failure"); ("reason", Js.Str "no test")];
                call_result := Js.Undefined; call_key := output |} ];
         agentResponses := [] |}.
Proof. vm_compute. reflexivity. Qed.


Example undeclared_tool_is_folded_into_history :
  history (processCalls Scripted.reproducerTools [Scripted.request "deleteRepo" []]
             (initialState "" ([] : list (completion GenerateContentResponse)))).2
  = [ {| call_name := "deleteRepo"; call_args := Js.Obj [];
         call_result := Js.Str "Error: Function 'deleteRepo' not found";
         call_key := GenAI.error |} ].
Proof. reflexivity. Qed.

End ReproducerFacts.

(** *** The classification agent *)

Module FiltererFacts.
Import GenAI Logger DefineAiFunction Filterer TraceFacts.

Section Facts.
Context {W : Type} `{!Models W}.
Variable tools : Tools W.
Variable systemInstruction : string.

Lemma quiet_execute name args (rt : Runtime W) :
  quiet rt (execute tools name args rt).2.
Proof.
  unfold execute. destruct (negb (Js.truthy name)); simpl.
  - apply quiet_debug.
  - pose proof (quiet_runAiFunction (aiFunctionsMap tools) (default "" name) args rt) as Hq.
    destruct (runAiFunction _ _ _ _) as [[result|e] rt']; simpl in *;
      (eapply quiet_trans; [exact Hq | apply quiet_debug]).
Qed.

Lemma filterer_processCalls_quiet calls (st : State W) :
  quiet (runtime st) (runtime (processCalls tools calls st).2).
Proof.
  revert st. induction calls as [|call rest IH]; intros st; simpl; [apply quiet_refl |].
  case_bool_decide; simpl; [apply quiet_refl |].
  pose proof (quiet_execute (name call) (Js.Obj (args call))
                (log debug ("🔧 Agent calling tool: " +:+ Js.show (name call) +:+ " with args:")
                     (runtime st))) as Hq.
  destruct (execute _ _ _ _) as [result rt]. simpl in Hq.
  eapply quiet_trans; [|apply (IH {| runtime := rt |})]. simpl.
  eapply quiet_trans; [apply quiet_debug | exact Hq].
Qed.

Lemma processCalls_without_analyzeIssue calls (st : State W) :
  Forall (λ call, name call ≠ Some "analyzeIssue") calls →
  (processCalls tools calls st).1 = Continue.
Proof.
  revert st. induction calls as [|call rest IH]; intros st Hcalls; simpl; [done |].
  inversion Hcalls as [|? ? Hcall Hrest]; subst.
  rewrite bool_decide_eq_false_2 by done.
  destruct (execute _ _ _ _) as [result rt]. apply IH, Hrest.
Qed.

(** The finalize call: nothing is dispatched and nothing changes; the
    function returns the fields of the verdict read from the call's
    arguments, whatever follows in the batch. *)
Lemma processCalls_analyzeIssue a rest (st : State W) :
  processCalls tools ({| name := Some "analyzeIssue"; args := a |} :: rest) st
  = (Return {| isFlakyTestIssue := Js.get "isFlakyTestIssue" a;
               confidence := Js.get "confidence" a;
               summary := Js.get "summary" a;
               reasoning := Js.get "reasoning" a;
               environment := Js.get "environment" a |}, st).
Proof. reflexivity. Qed.

Lemma filterer_processCalls_app pre rest (st : State W) :
  Forall (λ call, name call ≠ Some "analyzeIssue") pre →
  processCalls tools (pre ++ rest) st = processCalls tools rest (processCalls tools pre st).2.
Proof.
  revert st. induction pre as [|call pre IH]; intros st Hpre; simpl; [done |].
  inversion Hpre as [|? ? Hcall Hrest]; subst.
  rewrite bool_decide_eq_false_2 by done.
  destruct (execute _ _ _ _) as [result rt]. apply IH, Hrest.
Qed.

(** In the classification loop too, a batch is processed only up to its
    finalize call. *)
Lemma finalize_call_ends_the_batch pre a post (st : State W) :
  Forall (λ call, name call ≠ Some "analyzeIssue") pre →
  processCalls tools (pre ++ {| name := Some "analyzeIssue"; args := a |} :: post) st
  = processCalls tools (pre ++ [ {| name := Some "analyzeIssue"; args := a |} ]) st.
Proof.
  intros Hpre. rewrite !filterer_processCalls_app by done. by rewrite !processCalls_analyzeIssue.
Qed.

(** The loop, read off the trace: it logs no warning, and while no turn
    calls the finalize tool and the backend answers, it neither returns nor
    throws. *)
Lemma filterer_iterations_trace todo (st : State W) :
  ∃ rs,
    responsesOf (trace (runtime (iterations tools systemInstruction todo st).2))
    = responsesOf (trace (runtime st)) ++ rs ∧
    warnings (trace (runtime (iterations tools systemInstruction todo st).2))
    = warnings (trace (runtime st)) ∧
    (Forall (withoutCallTo "analyzeIssue") rs →
       (iterations tools systemInstruction todo st).1 = Continue ∨
       (iterations tools systemInstruction todo st).1 = Break).
Proof.
  revert st. induction todo as [|todo IH]; intros st; simpl.
  { exists []. rewrite app_nil_r. repeat split; try done. by left. }
  unfold iterationBody.
  destruct (generateContent _ _) as [[response|e] w']; simpl.
  - case_bool_decide as Hcalls; simpl.
    + exists [Normal response].
      rewrite !responsesOf_snoc, !warnings_snoc, !app_nil_r. simpl.
      repeat split; try done. by right.
    + set (st1 := {| runtime := emit (ModelInvoked _ (Normal response)) _;
                     contents := contents st |}).
      pose proof (filterer_processCalls_quiet (default [] (functionCalls response)) st1) as [Hq1 Hq2].
      pose proof (processCalls_without_analyzeIssue
                    (default [] (functionCalls response)) st1) as Hflow.
      destruct (processCalls tools (default [] (functionCalls response)) st1)
        as [fl st2]; subst st1; simpl in *.
      rewrite responsesOf_snoc in Hq1. rewrite warnings_snoc, app_nil_r in Hq2.
      destruct fl as [| |v|e]; simpl.
      * destruct (IH st2) as (rs & Hrs & Hws & Hquiet).
        exists (Normal response :: rs). rewrite Hrs, Hws, Hq1, Hq2, <- app_assoc.
        repeat split; try done.
        intros Hnever. apply Forall_cons in Hnever as [_ Hrest]. by apply Hquiet.
      * exists [Normal response]. rewrite Hq1, Hq2. repeat split; try done. by right.
      * exists [Normal response]. rewrite Hq1, Hq2. repeat split; try done.
        intros Hnever. apply Forall_cons in Hnever as [(r & Heq & Hnone) _].
        injection Heq as <-. by specialize (Hflow Hnone).
      * exists [Normal response]. rewrite Hq1, Hq2. repeat split; try done.
        intros Hnever. apply Forall_cons in Hnever as [(r & Heq & Hnone) _].
        injection Heq as <-. by specialize (Hflow Hnone).
  - exists [Throw e]. rewrite responsesOf_snoc, warnings_snoc, app_nil_r.
    repeat split; try done.
    intros Hnever. apply Forall_cons in Hnever as [(r & Hr & _) _]. done.
Qed.

(** A run in which no turn calls the finalize tool: the function throws,
    and no warning is logged. *)
Lemma run_without_analyzeIssue (initialPrompt : string) (w : W) :
  let run := analyzeIssueWithGemini tools systemInstruction initialPrompt w in
  Forall (withoutCallTo "analyzeIssue") (responsesOf (trace run.2)) →
  run.1 = Throw (Js.new_Error
                   "AI completed analysis without calling analyzeIssue after 10 iterations") ∧
  warnings (trace run.2) = [].
Proof.
  intros run. subst run. unfold analyzeIssueWithGemini.
  set (st0 := {| runtime := {| world := w; trace := [] |}; contents := _ |}).
  destruct (filterer_iterations_trace maxIterations st0) as (rs & Hrs & Hws & Hquiet).
  destruct (iterations tools systemInstruction maxIterations st0) as [fl st]; simpl in *.
  destruct fl as [| |v|e]; simpl; rewrite Hrs, Hws; intros Hnever;
    destruct (Hquiet Hnever) as [Hfl | Hfl]; done.
Qed.

End Facts.
End FiltererFacts.

(** *** The two agents side by side *)

Module AgentFacts.
Import GenAI Logger DefineAiFunction TraceFacts.

(** C2, as amended.  A run in which the model never issues the finalize
    call, so that the iteration budget is used up or a turn without tool
    calls ends the loop, ends differently in the two agents.  The
    reproduction agent returns normally, with a null result and one logged
    warning.  The classification agent logs no warning and throws the error
    "AI completed analysis without calling analyzeIssue after 10
    iterations" to its caller. *)
Theorem exhausted_budget_by_variant {W W' : Type} `{!Models W} `{!Models W'}
    (reproducerTools : Reproducer.Tools W) (filtererTools : Filterer.Tools W')
    (systemInstruction systemInstruction' initialPrompt initialPrompt' : string)
    (N : nat) (w : W) (w' : W') :
  let reproduction :=
    Reproducer.reproduceWithGemini reproducerTools systemInstruction initialPrompt N w in
  let classification :=
    Filterer.analyzeIssueWithGemini filtererTools systemInstruction' initialPrompt' w' in
  Forall (withoutCallTo "report") (responsesOf (trace reproduction.2)) →
  Forall (withoutCallTo "analyzeIssue") (responsesOf (trace classification.2)) →
  ((∃ result, reproduction.1 = Normal result ∧ Reproducer.finalResult result = None) ∧
   warnings (trace reproduction.2)
   = ["Reproducer agent exceeded max iterations without reporting a final result."]) ∧
  (classification.1
   = Throw (Js.new_Error
              "AI completed analysis without calling analyzeIssue after 10 iterations") ∧
   warnings (trace classification.2) = []).
Proof.
  intros reproduction classification Hreproduction Hclassification. split.
  - by apply ReproducerFacts.run_without_report.
  - by apply FiltererFacts.run_without_analyzeIssue.
Qed.

(** C9, as amended.  The implementation of either finalize tool does
    nothing.  The classification loop recognises the finalize call by name
    before any dispatch: nothing is run and nothing changes, and the loop
    ends with the fields of the call's arguments.  The reproduction loop
    dispatches the finalize call through the registry like any other call,
    which runs that implementation and adds a record of the call to the
    history, and only then recognises the name and ends with the call's
    arguments; the world and the conversation are as before. *)
Theorem finalize_call_by_variant {W W' : Type} `{!Models W} `{!Models W'}
    (reproducerTools : Reproducer.Tools W) (filtererTools : Filterer.Tools W')
    (a : list (string * Js.value)) (rest : list FunctionCall)
    (st : Reproducer.State W) (st' : Filterer.State W') :
  (∀ v (w : W), implementation Reproducer.report v w = (Normal Js.Undefined, w)) ∧
  (∀ v (w : W'), implementation Filterer.analyzeIssue v w = (Normal Js.Undefined, w)) ∧
  Filterer.processCalls filtererTools ({| name := Some "analyzeIssue"; args := a |} :: rest) st'
  = (Return {| Filterer.isFlakyTestIssue := Js.get "isFlakyTestIssue" a;
               Filterer.confidence := Js.get "confidence" a;
               Filterer.summary := Js.get "summary" a;
               Filterer.reasoning := Js.get "reasoning" a;
               Filterer.environment := Js.get "environment" a |}, st') ∧
  Reproducer.processCalls reproducerTools ({| name := Some "report"; args := a |} :: rest) st
  = (Return (Js.Obj a),
     {| Reproducer.runtime :=
          {| world := world (Reproducer.runtime st);
             trace := trace (Reproducer.runtime st) ++
               [ Logged debug "🔧 Agent calling tool: report with args:";
                 ImplementationRun "report" (Js.Obj a);
                 Logged debug "✅ Tool report completed successfully";
                 Logged debug ("Report called with status: "
                                 +:+ Js.to_string (Js.get "status" a)) ] |};
        Reproducer.contents := Reproducer.contents st;
        Reproducer.history := Reproducer.history st ++
          [ {| Reproducer.call_name := "report"; Reproducer.call_args := Js.Obj a;
               Reproducer.call_result := Js.Undefined; Reproducer.call_key := output |} ];
        Reproducer.responses := Reproducer.responses st |}).
Proof.
  split; [done | split; [done | split]].
  - apply FiltererFacts.processCalls_analyzeIssue.
  - apply ReproducerFacts.processCalls_report.
Qed.

(** Ten turns, each asking to read a file. *)
Definition readsTenTimes : list (completion GenerateContentResponse) :=
  replicate 10 (Scripted.turn [Scripted.request "readFile" [("path", Js.Str "package.json")]]).

Lemma exhausted_budget_by_variant_witness :
  let reproduction :=
    Reproducer.reproduceWithGemini Scripted.reproducerTools "" "" 10 readsTenTimes in
  let classification :=
    Filterer.analyzeIssueWithGemini Scripted.filtererTools "" "" readsTenTimes in
  ((∃ result, reproduction.1 = Normal result ∧ Reproducer.finalResult result = None) ∧
   warnings (trace reproduction.2)
   = ["Reproducer agent exceeded max iterations without reporting a final result."]) ∧
  (classification.1
   = Throw (Js.new_Error
              "AI completed analysis without calling analyzeIssue after 10 iterations") ∧
   warnings (trace classification.2) = []).
Proof.
  apply (exhausted_budget_by_variant Scripted.reproducerTools Scripted.filtererTools
           "" "" "" "" 10 readsTenTimes readsTenTimes); turns_without_finalize.
Defined.

(** C2 as stated fails for the classification agent: when the model uses
    all ten iterations to read files, the run ends with an error thrown to
    the caller. *)
Lemma classification_throws_on_exhausted_budget :
  ¬ (∀ (W : Type) (M : Models W) (tools : Filterer.Tools W)
       systemInstruction initialPrompt (w : W),
        let run := Filterer.analyzeIssueWithGemini tools systemInstruction initialPrompt w in
        Forall (withoutCallTo "analyzeIssue") (responsesOf (trace run.2)) →
        ∀ e, run.1 ≠ Throw e).
Proof.
  intros claim.
  apply (claim _ Scripted.models Scripted.filtererTools "" "" readsTenTimes
           ltac:(turns_without_finalize)
           (Js.new_Error
              "AI completed analysis without calling analyzeIssue after 10 iterations")).
  vm_compute. reflexivity.
Qed.

(** C9 as stated fails for the reproduction agent: in a run whose model
    answers the first turn with the finalize call alone, the trace shows
    that the implementation of the finalize tool was run. *)
Lemma reproduction_runs_the_finalize_implementation :
  ¬ (∀ (W : Type) (M : Models W) (tools : Reproducer.Tools W)
       systemInstruction initialPrompt N (w : W),
        "report" ∉ implementationsRun
                      (trace (Reproducer.reproduceWithGemini
                                tools systemInstruction initialPrompt N w).2)).
Proof.
  intros claim.
  apply (claim _ Scripted.models Scripted.reproducerTools "" "" 1%nat
           [Scripted.turn [Scripted.request "report" [("status", Js.Str "success")]]]).
  assert (implementationsRun
            (trace (Reproducer.reproduceWithGemini Scripted.reproducerTools "" "" 1
                      [Scripted.turn
                         [Scripted.request "report" [("status", Js.Str "success")]]]).2)
          = ["report"]) as -> by reflexivity.
  apply list_elem_of_here.
Qed.

Example classification_runs_no_implementation :
  let run :=
    Filterer.analyzeIssueWithGemini Scripted.filtererTools "" ""
      [Scripted.turn [Scripted.request "analyzeIssue"
                        [("isFlakyTestIssue", Js.Bool true); ("confidence", Js.Num 90)]]] in
  implementationsRun (trace run.2) = [] ∧
  run.1 = Normal {| Filterer.isFlakyTestIssue := Js.Bool true;
                    Filterer.confidence := Js.Num 90;
                    Filterer.summary := Js.Undefined;
                    Filterer.reasoning := Js.Undefined;
                    Filterer.environment := Js.Undefined |}.
Proof. split; reflexivity. Qed.

End AgentFacts.

(** *** Strings *)

Module StringFacts.

Lemma append_cons c s t : String c s +:+ t = String c (s +:+ t).
Proof. reflexivity. Qed.

Lemma append_nil_l s : "" +:+ s = s.
Proof. reflexivity. Qed.

Lemma append_nil_r s : s +:+ "" = s.
Proof. induction s as [|c s IH]; [done |]. by rewrite append_cons, IH. Qed.


Lemma length_append s t : String.length (s +:+ t) = (String.length s + String.length t)%nat.
Proof. induction s as [|c s IH]; [done |]. rewrite append_cons. simpl. by rewrite IH. Qed.


End StringFacts.

(** *** More on the repository explorer *)

Module ExploreMoreFacts.
Import Explore ExploreFacts.

(** [c] occurs in [s]. *)
Fixpoint occurs (c : ascii) (s : string) : bool :=
  match s with
  | EmptyString => false
  | String c' s' => bool_decide (c' = c) || occurs c s'
  end.

Lemma split_no_separator sep s : occurs sep s = false → Js.split sep s = [s].
Proof.
  induction s as [|c s IH]; simpl; [done |].
  intros Hocc. apply orb_false_iff in Hocc as [Hc Hs].
  apply bool_decide_eq_false in Hc.
  destruct (decide (c = sep)) as [Heq | _]; [done |]. by rewrite (IH Hs).
Qed.

Lemma split_append sep s rest :
  occurs sep s = false →
  Js.split sep (s +:+ String sep rest) = s :: Js.split sep rest.
Proof.
  induction s as [|c s IH]; simpl.
  - intros _. destruct (decide (sep = sep)); done.
  - intros Hocc. apply orb_false_iff in Hocc as [Hc Hs].
    apply bool_decide_eq_false in Hc.
    destruct (decide (c = sep)) as [Heq | _]; [done |]. by rewrite (IH Hs).
Qed.

(** A repository name is accepted exactly when it starts with a non-empty
    owner, a slash and a non-empty repository; whatever follows a second
    slash is ignored for the owner and the repository, and kept in the
    full name.  The instance starts with an empty cache. *)
Theorem createExploreFunctions_accepts (o r rest : string) :
  o ≠ "" → r ≠ "" →
  occurs "/" o = false → occurs "/" r = false →
  rest = "" ∨ (∃ rest', rest = String "/" rest') →
  createExploreFunctions (o +:+ "/" +:+ r +:+ rest)
  = Normal {| repoFullName := o +:+ "/" +:+ r +:+ rest; owner := o; repo := r;
              repoCache := ∅ |}.
Proof.
  intros Ho Hr Hoo Hor Hrest.
  assert (∃ tail, Js.split "/" (o +:+ "/" +:+ r +:+ rest) = o :: r :: tail) as [tail Hsplit].
  { assert (o +:+ "/" +:+ r +:+ rest = o +:+ String "/" (r +:+ rest)) as -> by reflexivity.
    rewrite (split_append "/" o _ Hoo).
    destruct Hrest as [-> | [rest' ->]].
    - exists []. rewrite StringFacts.append_nil_r. by rewrite (split_no_separator _ _ Hor).
    - eexists. by rewrite (split_append "/" r _ Hor). }
  unfold createExploreFunctions. rewrite Hsplit. simpl.
  destruct o; [done |]. by destruct r.
Qed.

(** A name that is rejected: its owner or its repository is missing or
    empty; the error names the input. *)
Theorem createExploreFunctions_rejects (name : string) :
  (occurs "/" name = false ∨ (∃ rest, name = String "/" rest)
   ∨ (∃ o rest, occurs "/" o = false ∧ name = o +:+ "//" +:+ rest)
   ∨ (∃ o, occurs "/" o = false ∧ name = o +:+ "/")) →
  createExploreFunctions name
  = Throw (Js.new_Error ("Invalid repository name format: " +:+ name
                           +:+ ". Expected 'owner/repo'")).
Proof.
  intros [Hnone | [[rest ->] | [(o & rest & Hoo & ->) | (o & Hoo & ->)]]].
  - unfold createExploreFunctions. rewrite (split_no_separator _ _ Hnone). simpl.
    by destruct (negb (negb (bool_decide (name = "")))).
  - reflexivity.
  - assert (Js.split "/" (o +:+ "//" +:+ rest) = o :: "" :: Js.split "/" rest) as Hsplit.
    { apply (split_append "/" o (String "/" rest) Hoo). }
    unfold createExploreFunctions. rewrite Hsplit. simpl.
    by destruct (negb (negb (bool_decide (o = "")))).
  - assert (Js.split "/" (o +:+ "/") = [o; ""]) as Hsplit.
    { apply (split_append "/" o "" Hoo). }
    unfold createExploreFunctions. rewrite Hsplit. simpl.
    by destruct (negb (negb (bool_decide (o = "")))).
Qed.

Section Facts.
Context {Env : Type} `{!Octokit Env}.

(** What a call makes of the backend's answer when the cache has no entry.
    A directory given to read-file, a file given to list-directory, and for
    read-file an entry that is no regular file or has no content, are
    errors raised inside the try block: the catch clause wraps them as
    "Failed to ...: <inner message>", and nothing is cached.  A regular file
    is decoded and a directory listing is reduced to its names, in order;
    both are cached, the empty text and the empty listing as well. *)
Theorem answer_of_the_backend (t : Tool) (path : string) (e : Explorer) (w : World Env)
    (data : ContentData) (env' : Env) :
  repoCache e !! cacheKey t e path = None →
  getContent (owner e) (repo e) (requestPath t path) (env w) = (Normal data, env') →
  implementation t path e w =
    (match t, data with
     | ReadFile, DataArray _ =>
         (Throw (Js.new_Error ("Failed to read file " +:+ path +:+ ": " +:+ path
                                 +:+ " is a directory, not a file")), e)
     | ReadFile, DataObject type (Some content) =>
         if bool_decide (type = "file") then
           (Normal (Text (decodeBase64 content)),
            set_repoCache (<[fileKey e path := Text (decodeBase64 content)]> (repoCache e)) e)
         else
           (Throw (Js.new_Error ("Failed to read file " +:+ path +:+ ": "
                                   +:+ "Unable to read file: " +:+ path)), e)
     | ReadFile, DataObject _ None =>
         (Throw (Js.new_Error ("Failed to read file " +:+ path +:+ ": "
                                 +:+ "Unable to read file: " +:+ path)), e)
     | ListDir, DataArray entries =>
         (Normal (Names (map entry_name entries)),
          set_repoCache (<[dirKey e path := Names (map entry_name entries)]> (repoCache e)) e)
     | ListDir, DataObject _ _ =>
         (Throw (Js.new_Error ("Failed to list directory " +:+ path +:+ ": " +:+ path
                                 +:+ " is a file, not a directory")), e)
     end,
     {| env := env';
        apiCalls := apiCalls w ++
          [ {| call_owner := owner e; call_repo := repo e;
               call_path := requestPath t path |} ] |}).
Proof.
  intros Hk Hget. destruct t; simpl in *; unfold readFile, listDir, request;
    rewrite Hk, Hget; simpl.
  - destruct data as [entries | type [content|]]; simpl; [done | | done].
    by destruct (bool_decide (type = "file")).
  - by destruct data as [entries | type content].
Qed.

(** Cache keys tell the tool and the path. *)
Lemma cacheKey_inj t t' (e : Explorer) path path' :
  cacheKey t e path = cacheKey t' e path' → t = t' ∧ path = path'.
Proof.
  destruct t, t'; simpl; unfold fileKey, dirKey; intros Heq; try discriminate Heq.
  - apply (String.app_inj "file:") in Heq. apply String.app_inj in Heq.
    apply (String.app_inj ":") in Heq. done.
  - apply (String.app_inj "dir:") in Heq. apply String.app_inj in Heq.
    apply (String.app_inj ":") in Heq. done.
Qed.

(** A call writes at most the entry of its own key. *)
Lemma implementation_other_keys t path (e : Explorer) (w : World Env) r e' w' k :
  implementation t path e w = (r, e', w') →
  k ≠ cacheKey t e path →
  repoCache e' !! k = repoCache e !! k.
Proof.
  intros Himpl Hk.
  destruct (repoCache e !! cacheKey t e path) as [c|] eqn:Hc.
  - rewrite (implementation_hit _ _ _ _ _ Hc) in Himpl. congruence.
  - destruct t; simpl in *; unfold readFile, listDir, request in Himpl; rewrite Hc in Himpl;
      destruct (getContent _ _ _ _) as [[[ents|ty [c|]]|err] env'];
      repeat case_bool_decide; injection Himpl as <- <- <-; simpl; try done;
      by rewrite lookup_insert_ne.
Qed.

(** The operation [o] is a call of tool [t] with [path] on instance [i]. *)
Definition isCall (i : nat) (t : Tool) (path : string) (o : Op) : Prop :=
  o = Call i t path.

(** Only a call of that very tool with that very path on that very
    instance fills its cache entry: when no such call is made, the entry is
    still missing after the run, whatever else was called.  So list-directory
    is not served by what read-file cached for the same path, and the
    listings of "." and of "" are cached apart although both ask the
    backend for the root. *)
Theorem entry_filled_only_by_its_call (ops : list Op) (p : Process Env) (i : nat)
    (t : Tool) (path : string) (e : Explorer) :
  explorers p !! i = Some e →
  repoCache e !! cacheKey t e path = None →
  Forall (λ o, ¬ isCall i t path o) ops →
  ∃ e', explorers (run ops p) !! i = Some e' ∧
        repoCache e' !! cacheKey t e' path = None.
Proof.
  revert p e. induction ops as [|o ops IH]; intros p e Hi Hmiss Hops; simpl.
  { by exists e. }
  apply Forall_cons in Hops as [Ho Hops].
  assert (∃ e1, explorers (step o p) !! i = Some e1 ∧
                repoCache e1 !! cacheKey t e1 path = None) as (e1 & Hi1 & Hmiss1).
  { destruct o as [name | self t' path']; simpl.
    - unfold create. destruct (createExploreFunctions name); simpl; exists e;
        (split; [| done]); [by apply lookup_app_l_Some | done].
    - unfold call. destruct (explorers p !! self) as [es|] eqn:Hs; simpl; [| by exists e].
      destruct (implementation t' path' es (world p)) as [[r es'] w'] eqn:Himpl; simpl.
      destruct (decide (self = i)) as [-> | Hne].
      + assert (es = e) as -> by congruence.
        exists es'. split; [apply list_lookup_insert_eq; by eapply lookup_lt_Some |].
        pose proof (implementation_outcome _ _ _ _ _ _ _ Himpl) as [Hext _].
        rewrite (cacheKey_extends _ _ _ _ Hext).
        rewrite (implementation_other_keys _ _ _ _ _ _ _ _ Himpl); [done |].
        intros Heq. apply cacheKey_inj in Heq as [-> ->]. by apply Ho.
      + exists e. split; [by rewrite list_lookup_insert_ne | done]. }
  by apply (IH _ e1).
Qed.

(** The number of tool calls among the operations of a run. *)
Definition calls (ops : list Op) : nat :=
  length (List.filter (λ o, match o with Call _ _ _ => true | Create _ => false end) ops).

Lemma step_requests (o : Op) (p : Process Env) :
  ∃ sent, apiCalls (world (step o p)) = apiCalls (world p) ++ sent ∧
          (length sent ≤ calls [o])%nat.
Proof.
  destruct o as [name | self t path]; simpl.
  - exists []. rewrite app_nil_r. split; [| done].
    unfold create. by destruct (createExploreFunctions name).
  - unfold call. destruct (explorers p !! self) as [e|]; simpl;
      [| exists []; by rewrite app_nil_r; split; [| unfold calls; simpl; lia]].
    destruct (repoCache e !! cacheKey t e path) as [c|] eqn:Hc.
    + rewrite (implementation_hit _ _ _ _ _ Hc). simpl.
      exists []. rewrite app_nil_r. split; [done | unfold calls; simpl; lia].
    + destruct (implementation_miss t path e (world p) Hc) as (r & e' & w' & -> & Hsent).
      simpl. eexists. split; [exact Hsent | done].
Qed.

(** The log of backend requests only grows, and a run sends at most one
    request for each tool call in it; creating instances sends none. *)
Theorem requests_bounded_by_calls (ops : list Op) (p : Process Env) :
  apiCalls (world p) `prefix_of` apiCalls (world (run ops p)) ∧
  (length (apiCalls (world (run ops p))) ≤ length (apiCalls (world p)) + calls ops)%nat.
Proof.
  revert p. induction ops as [|o ops IH]; intros p; simpl.
  { split; [done | lia]. }
  destruct (step_requests o p) as (sent & Hsent & Hlen).
  destruct (IH (step o p)) as [Hprefix Hbound]. split.
  - etrans; [| exact Hprefix]. rewrite Hsent. by apply prefix_app_r.
  - rewrite Hsent, length_app in Hbound. unfold calls in *. simpl in *.
    destruct o; simpl in *; lia.
Qed.

End Facts.

Lemma createExploreFunctions_accepts_witness :
  createExploreFunctions "kelseyhightower/nocode/tree/master"
  = Normal {| repoFullName := "kelseyhightower/nocode/tree/master";
              owner := "kelseyhightower"; repo := "nocode"; repoCache := ∅ |}.
Proof.
  apply (createExploreFunctions_accepts "kelseyhightower" "nocode" "/tree/master");
    try done.
  right. by eexists.
Defined.

Lemma createExploreFunctions_rejects_witness :
  createExploreFunctions "owner/"
  = Throw (Js.new_Error "Invalid repository name format: owner/. Expected 'owner/repo'").
Proof.
  apply (createExploreFunctions_rejects "owner/").
  right. right. right. by exists "owner".
Defined.

(** A directory listing given to read-file. *)
Lemma answer_of_the_backend_witness :
  implementation ReadFile "src" testRepo
    {| env := [Normal (DataArray [ {| entry_name := "file1.txt"; entry_type := "file" |} ])];
       apiCalls := [] |}
  = (Throw (Js.new_Error "Failed to read file src: src is a directory, not a file"),
     testRepo,
     {| env := [];
        apiCalls := [ {| call_owner := "test-owner"; call_repo := "test-repo";
                         call_path := "src" |} ] |}).
Proof.
  exact (answer_of_the_backend ReadFile "src" testRepo
           {| env := [Normal (DataArray [ {| entry_name := "file1.txt";
                                             entry_type := "file" |} ])];
              apiCalls := [] |}
           (DataArray [ {| entry_name := "file1.txt"; entry_type := "file" |} ]) []
           eq_refl eq_refl).
Defined.

(** One instance and a backend that lists the root twice. *)
Definition listsRootTwice : Process (list (completion ContentData)) :=
  step (Create "test-owner/test-repo")
    (Scripted.process
       [ Normal (DataArray [ {| entry_name := "README.md"; entry_type := "file" |} ]);
         Normal (DataArray [ {| entry_name := "README.md"; entry_type := "file" |} ]) ]).

Lemma entry_filled_only_by_its_call_witness :
  ∃ e', explorers (run [Call 0 ListDir "."] listsRootTwice) !! 0%nat = Some e' ∧
        repoCache e' !! cacheKey ListDir e' "" = None.
Proof.
  apply (entry_filled_only_by_its_call [Call 0 ListDir "."] listsRootTwice 0 ListDir ""
           testRepo).
  - reflexivity.
  - reflexivity.
  - repeat constructor. intros Hcall. discriminate Hcall.
Defined.

Example root_listed_under_two_names :
  apiCalls (world (run [Call 0 ListDir "."; Call 0 ListDir ""; Call 0 ListDir "."]
                       listsRootTwice))
  = [ {| call_owner := "test-owner"; call_repo := "test-repo"; call_path := "" |};
      {| call_owner := "test-owner"; call_repo := "test-repo"; call_path := "" |} ].
Proof. vm_compute. reflexivity. Qed.

End ExploreMoreFacts.

(** *** More on the container tools *)

Module ContainerFacts.
Import TmpDir Docker.

Section Facts.
Context {Env : Type} `{!Os Env} `{!Runtime Env} `{!Exec Env}.

(** Image builds one after the other on one instance, whatever their
    outcomes. *)
Fixpoint buildAll (builds : list (string * string)) (s : DockerFunctions) (h : Host Env)
  : DockerFunctions * Host Env :=
  match builds with
  | [] => (s, h)
  | (dockerfile, imageName) :: rest =>
      let '(_, s', h') := buildImage dockerfile imageName s h in
      buildAll rest s' h'
  end.

(** An event of the trace is the clone of a repository. *)
Definition isGitClone (ev : Event) : Prop := ∃ url dir, ev = GitClone url dir.

(** What a build leaves alone: the repository of the instance and its
    container; and, without a repository, the bind-mountable directory,
    with no clone among the requests it sends. *)
Lemma buildImage_keeps dockerfile imageName (s : DockerFunctions) (h : Host Env) r s' h' :
  buildImage dockerfile imageName s h = (r, s', h') →
  repoUrl s' = repoUrl s ∧ containerId s' = containerId s ∧
  (repoUrl s = None →
     repoDir s' = repoDir s ∧
     ∃ sent, trace h' = trace h ++ sent ∧ Forall (λ ev, ¬ isGitClone ev) sent).
Proof.
  unfold buildImage, tmpDirManager_create, TmpDir.create, execSync_git_clone, buildAndVerify.
  intros Hbuild.
  destruct (repoUrl s) as [url|] eqn:Hurl; simpl in Hbuild.
  - repeat case_match; simplify_eq; simpl; by rewrite ?Hurl.
  - repeat case_match; simplify_eq; simpl; rewrite ?Hurl.
    all: split; [done |]; split; [done |]; intros _; split; [done |].
    all: eexists; (split; [by rewrite <- ?app_assoc |]).
    all: repeat constructor; intros (? & ? & ?); done.
Qed.

Lemma buildAll_keeps builds (s : DockerFunctions) (h : Host Env) :
  repoUrl (buildAll builds s h).1 = repoUrl s ∧
  containerId (buildAll builds s h).1 = containerId s ∧
  (repoUrl s = None →
     repoDir (buildAll builds s h).1 = repoDir s ∧
     ∃ sent, trace (buildAll builds s h).2 = trace h ++ sent ∧
             Forall (λ ev, ¬ isGitClone ev) sent).
Proof.
  revert s h. induction builds as [|[dockerfile imageName] builds IH]; intros s h; simpl.
  { split; [done | split; [done | intros _; split; [done |]]].
    exists []. split; [by rewrite app_nil_r | constructor]. }
  destruct (buildImage dockerfile imageName s h) as [[r s1] h1] eqn:Hbuild.
  destruct (buildImage_keeps _ _ _ _ _ _ _ Hbuild) as (Hurl1 & Hid1 & Hnone1).
  destruct (IH s1 h1) as (Hurl & Hid & Hnone).
  split; [congruence | split; [congruence |]].
  intros Hs. destruct (Hnone1 Hs) as (Hdir1 & sent1 & Htrace1 & Hsent1).
  destruct Hnone as (Hdir & sent & Htrace & Hsent); [congruence |].
  split; [congruence |]. exists (sent1 ++ sent).
  split; [by rewrite Htrace, Htrace1, app_assoc | by apply Forall_app].
Qed.

(** Building images creates no container: on an instance on which
    create-container has not succeeded, execute-command still fails, after
    any number of builds, with the fixed message, and asks the container
    runtime for nothing. *)
Theorem executeCommand_needs_a_container (repoFullName : option string)
    (builds : list (string * string)) (command : string) (h : Host Env) :
  let '(s, h') := buildAll builds (createDockerFunctions repoFullName) h in
  executeCommand command s h'
  = (Throw (Js.new_Error "No container has been created yet. Call createContainer first."),
     s, h').
Proof.
  pose proof (buildAll_keeps builds (createDockerFunctions repoFullName) h) as (_ & Hid & _).
  destruct (buildAll builds (createDockerFunctions repoFullName) h) as [s h']. simpl in *.
  unfold executeCommand. by rewrite Hid.
Qed.

(** Without a repository nothing is ever cloned and no directory is bound:
    after any number of builds, the requests sent hold no clone, and
    create-container asks for a container without binds. *)
Theorem no_repository_no_clone_no_bind (repoFullName : option string)
    (builds : list (string * string)) (imageName : string) (h : Host Env) :
  Js.truthy repoFullName = false →
  let '(s, h') := buildAll builds (createDockerFunctions repoFullName) h in
  (∃ sent, trace h' = trace h ++ sent ∧ Forall (λ ev, ¬ isGitClone ev) sent) ∧
  trace (createContainer imageName s h').2 = trace h' ++ [CreateContainer imageName []].
Proof.
  intros Hname.
  pose proof (buildAll_keeps builds (createDockerFunctions repoFullName) h) as (_ & _ & Hnone).
  destruct (buildAll builds (createDockerFunctions repoFullName) h) as [s h']. simpl in *.
  unfold createDockerFunctions in Hnone. rewrite Hname in Hnone. simpl in Hnone.
  destruct (Hnone eq_refl) as (Hdir & Hsent). split; [done |].
  unfold createContainer. rewrite Hdir. simpl.
  repeat case_match; simplify_eq; done.
Qed.



(** A clone that fails is thrown as it is, without the wrapping of build
    errors; no build is requested; and the directory made for the clone
    stays registered and stays the directory that create-container binds. *)
Theorem failed_clone_is_thrown_as_is (dockerfile imageName url : string) (s : DockerFunctions)
    (h : Host Env) (now random : string) (env1 env2 : Env) (failure : Js.error) :
  let cloneDir := join tmpdir ("repo-clone" +:+ "-" +:+ now +:+ "-" +:+ random) in
  repoUrl s = Some url →
  now_random (env h) = ((now, random), env1) →
  git_clone url cloneDir env1 = (Throw failure, env2) →
  ∃ h',
    buildImage dockerfile imageName s h
    = (Throw failure,
       {| repoUrl := Some url; repoDir := Some cloneDir; containerId := containerId s |}, h') ∧
    trace h' = trace h ++ [GitClone url cloneDir] ∧
    dirs (tmpDirManager h') = {[cloneDir]} ∪ dirs (tmpDirManager h) ∧
    (∀ image h2,
        trace (createContainer image
                 {| repoUrl := Some url; repoDir := Some cloneDir;
                    containerId := containerId s |} h2).2
        = trace h2 ++ [CreateContainer image [cloneDir +:+ ":/workspace"]]).
Proof.
  intros cloneDir Hurl Hname Hclone.
  unfold buildImage, tmpDirManager_create, TmpDir.create, execSync_git_clone.
  rewrite Hurl. simpl. rewrite Hname. simpl. fold cloneDir. rewrite Hclone. simpl.
  eexists. split; [reflexivity |]. simpl. split; [done | split; [done |]].
  intros image h2. unfold createContainer. simpl.
  repeat case_match; simplify_eq; done.
Qed.


End Facts.

(** **** Cleaning up *)






Lemma no_repository_no_clone_no_bind_witness :
  let '(s, h') :=
    buildAll [("FROM node:24-alpine", "flaki-test-node")] (createDockerFunctions None)
      Scripted.host in
  (∃ sent, trace h' = trace Scripted.host ++ sent ∧ Forall (λ ev, ¬ isGitClone ev) sent) ∧
  trace (createContainer "flaki-test-node" s h').2
  = trace h' ++ [CreateContainer "flaki-test-node" []].
Proof.
  exact (no_repository_no_clone_no_bind None [("FROM node:24-alpine", "flaki-test-node")]
           "flaki-test-node" Scripted.host eq_refl).
Defined.


Lemma failed_clone_is_thrown_as_is_witness :
  ∃ h',
    buildImage "FROM node:24-alpine" "flaki-test-nocode"
      (createDockerFunctions (Some "kelseyhightower/nocode")) Scripted.offlineHost
    = (Throw (Js.new_Error "Command failed: git clone"),
       {| repoUrl := Some "https://github.com/kelseyhightower/nocode.git";
          repoDir := Some "/tmp/repo-clone-1700000000000-k3x9q2a";
          containerId := None |}, h') ∧
    trace h' = [ GitClone "https://github.com/kelseyhightower/nocode.git"
                          "/tmp/repo-clone-1700000000000-k3x9q2a" ].
Proof.
  edestruct (failed_clone_is_thrown_as_is (Env:=Scripted.Offline)
               "FROM node:24-alpine" "flaki-test-nocode"
               "https://github.com/kelseyhightower/nocode.git"
               (createDockerFunctions (Some "kelseyhightower/nocode")) Scripted.offlineHost)
    as (h' & Hrun & Htrace & _).
  - reflexivity.
  - vm_compute. reflexivity.
  - vm_compute. reflexivity.
  - exists h'. split; [exact Hrun | exact Htrace].
Defined.


End ContainerFacts.

(** *** More on the tool registry *)

Module RegistryFacts.
Import Logger DefineAiFunction.





End RegistryFacts.

(** *** More on the reproduction agent *)

Module ReproducerMoreFacts.
Import GenAI Logger DefineAiFunction Reproducer TraceFacts ReproducerFacts.

(** The tool calls of a turn, and of a sequence of turns. *)
Definition callsOf (r : completion GenerateContentResponse) : list FunctionCall :=
  match r with
  | Normal response => default [] (functionCalls response)
  | Throw _ => []
  end.

Definition requested (rs : list (completion GenerateContentResponse)) : list FunctionCall :=
  concat (map callsOf rs).

(** The calls up to and including the first call of the finalize tool. *)
Fixpoint upToReport (calls : list FunctionCall) : list FunctionCall :=
  match calls with
  | [] => []
  | call :: rest =>
      if bool_decide (name call = Some "report") then [call] else call :: upToReport rest
  end.

(** The first call of the finalize tool. *)
Fixpoint firstReport (calls : list FunctionCall) : option FunctionCall :=
  match calls with
  | [] => None
  | call :: rest =>
      if bool_decide (name call = Some "report") then Some call else firstReport rest
  end.

(** The requests sent to the model, oldest first. *)
Definition requestsOf (tr : list Event) : list GenerateContentParameters :=
  omap (λ ev, match ev with ModelInvoked request _ => Some request | _ => None end) tr.

Lemma requestsOf_snoc tr ev :
  requestsOf (tr ++ [ev])
  = requestsOf tr ++ match ev with ModelInvoked request _ => [request] | _ => [] end.
Proof. unfold requestsOf. rewrite omap_app. by destruct ev. Qed.

Lemma upToReport_without calls rest :
  firstReport calls = None → upToReport (calls ++ rest) = calls ++ upToReport rest.
Proof.
  induction calls as [|call calls IH]; simpl; [done |].
  case_bool_decide; [done |]. intros Hnone. by rewrite IH.
Qed.

Lemma upToReport_with calls rest call :
  firstReport calls = Some call → upToReport (calls ++ rest) = upToReport calls.
Proof.
  induction calls as [|c calls IH]; simpl; [done |].
  case_bool_decide; [done |]. intros Hsome. by rewrite IH.
Qed.

Section Facts.
Context {W : Type} `{!Models W}.
Variable tools : Tools W.
Variable systemInstruction : string.

(** The cases of the loop, as an induction principle. *)
Lemma iterations_cases (N : nat) (P : nat → nat → State W → flow Js.value * State W → Prop) :
  (∀ i st, P 0%nat i st (Continue, st)) →
  (∀ todo i st e st1,
      askModel tools systemInstruction N i st = (Throw e, st1) →
      P (S todo) i st (Raise e, st1)) →
  (∀ todo i st response st1,
      askModel tools systemInstruction N i st = (Normal response, st1) →
      default [] (functionCalls response) = [] →
      P (S todo) i st
        (Break,
         with_runtime (log debug "Agent responded without making a function call:") st1)) →
  (∀ todo i st response st1 v st2,
      askModel tools systemInstruction N i st = (Normal response, st1) →
      default [] (functionCalls response) ≠ [] →
      processCalls tools (default [] (functionCalls response)) st1 = (Return v, st2) →
      P (S todo) i st (Return v, st2)) →
  (∀ todo i st response st1 st2,
      askModel tools systemInstruction N i st = (Normal response, st1) →
      default [] (functionCalls response) ≠ [] →
      processCalls tools (default [] (functionCalls response)) st1 = (Continue, st2) →
      P todo (S i) st2 (iterations tools systemInstruction N todo (S i) st2) →
      P (S todo) i st (iterations tools systemInstruction N todo (S i) st2)) →
  ∀ todo i st, P todo i st (iterations tools systemInstruction N todo i st).
Proof.
  intros Hdone Hthrow Hbreak Hreturn Hnext.
  induction todo as [|todo IH]; intros i st; simpl; [apply Hdone |].
  unfold iterationBody.
  destruct (askModel tools systemInstruction N i st) as [[response|e] st1] eqn:Hask;
    [| by apply Hthrow].
  case_bool_decide as Hcalls.
  - eapply Hbreak; [done |]. by destruct (default [] (functionCalls response)).
  - assert (default [] (functionCalls response) ≠ []) as Hne.
    { intros Hnil. by rewrite Hnil in Hcalls. }
    pose proof (processCalls_flow tools (default [] (functionCalls response)) st1) as Hshape.
    destruct (processCalls tools (default [] (functionCalls response)) st1)
      as [fl st2] eqn:Hprocess.
    destruct fl as [| |v|e]; simpl in Hshape.
    + eapply Hnext; [done | done | done | apply IH].
    + destruct Hshape as [? | [? ?]]; done.
    + by eapply Hreturn.
    + destruct Hshape as [? | [? ?]]; done.
Qed.

(** What the history keeps of a call, and what a requested call gives. *)
Definition recorded (r : CallRecord) : string * Js.value := (call_name r, call_args r).

Definition asked (call : FunctionCall) : string * Js.value :=
  (Js.or_else (name call) "unknown", Js.Obj (args call)).

(** The names among the calls that the registry knows. *)
Definition declaredNames (calls : list FunctionCall) : list string :=
  filter (λ n, n ∈ declarations tools) (omap name calls).

Lemma declaredNames_cons call calls :
  declaredNames (call :: calls)
  = match name call with
    | Some n => if bool_decide (n ∈ declarations tools) then [n] else []
    | None => []
    end ++ declaredNames calls.
Proof.
  unfold declaredNames. simpl. destruct (name call) as [n|]; simpl; [| done].
  case_bool_decide; [by rewrite filter_cons_True | by rewrite filter_cons_False].
Qed.

Lemma lookup_declared n :
  n ∈ declarations tools → is_Some (aiFunctionsMap tools !! n).
Proof.
  unfold declarations. simpl. intros Hn.
  repeat (apply elem_of_cons in Hn as [-> | Hn]; [by eexists |]).
  by apply elem_of_nil in Hn.
Qed.

(** The dispatch of a call runs the implementation of a declared name, and
    nothing else. *)
Lemma dispatch_runs n args (rt : Runtime W) :
  implementationsRun (trace (dispatch tools n args rt).2)
  = implementationsRun (trace rt)
    ++ match n with
       | Some n => if bool_decide (n ∈ declarations tools) then [n] else []
       | None => []
       end.
Proof.
  unfold dispatch. destruct n as [n|]; simpl.
  - case_bool_decide as Hempty; simpl.
    + subst n. rewrite implementationsRun_snoc, bool_decide_eq_false_2; [done |].
      unfold declarations. simpl. intros Hin.
      repeat (apply elem_of_cons in Hin as [? | Hin]; [done |]).
      by apply elem_of_nil in Hin.
    + unfold runAiFunction. case_bool_decide as Hn.
      * destruct (lookup_declared n Hn) as [f Hf]. rewrite Hf. simpl.
        destruct (implementation f args (world rt)) as [[result|e] w']; simpl;
          by rewrite !implementationsRun_snoc, app_nil_r.
      * rewrite (lookup_undeclared tools n Hn). simpl.
        by rewrite implementationsRun_snoc.
  - by rewrite implementationsRun_snoc.
Qed.

(** A batch of calls: the records, the implementations run and the way the
    batch ends. *)
Lemma processCalls_calls calls (st : State W) :
  map recorded (history (processCalls tools calls st).2)
  = map recorded (history st) ++ map asked (upToReport calls) ∧
  implementationsRun (trace (runtime (processCalls tools calls st).2))
  = implementationsRun (trace (runtime st)) ++ declaredNames (upToReport calls) ∧
  (processCalls tools calls st).1
  = match firstReport calls with
    | Some call => Return (Js.Obj (args call))
    | None => Continue
    end.
Proof.
  revert st. induction calls as [|call rest IH]; intros st; simpl.
  { by rewrite !app_nil_r. }
  pose proof (dispatch_runs (name call) (Js.Obj (args call))
                (log debug ("🔧 Agent calling tool: " +:+ Js.show (name call) +:+ " with args:")
                     (runtime st))) as Hrun.
  destruct (dispatch _ _ _ _) as [[key result] rt]. simpl in Hrun.
  rewrite implementationsRun_snoc, app_nil_r in Hrun.
  case_bool_decide as Hreport; simpl.
  - rewrite map_app, implementationsRun_snoc, app_nil_r, Hrun, declaredNames_cons.
    unfold declaredNames. simpl. by rewrite filter_nil, app_nil_r.
  - destruct (IH {| runtime := rt;
                    contents := contents st ++
                      [ {| role := "model";
                           parts := [functionCall_part (name call) (Js.Obj (args call))] |};
                        {| role := "user";
                           parts := [functionResponse_part (name call) key result] |} ];
                    history := history st ++
                      [ {| call_name := Js.or_else (name call) "unknown";
                           call_args := Js.Obj (args call);
                           call_result := result; call_key := key |} ];
                    responses := responses st |}) as (Hhist & Himpl & Hflow).
    simpl in *. rewrite Hhist, Himpl, Hflow, Hrun, declaredNames_cons, map_app, <- !app_assoc.
    done.
Qed.

(** A batch of calls leaves the recorded texts as they are and adds two
    turns to the conversation for every call before the finalize call. *)
Lemma processCalls_conversation calls (st : State W) :
  responses (processCalls tools calls st).2 = responses st ∧
  ∃ more, contents (processCalls tools calls st).2 = contents st ++ more ∧
          (firstReport calls = None → length more = 2 * length calls)%nat.
Proof.
  revert st. induction calls as [|call rest IH]; intros st; simpl.
  { split; [done |]. exists []. by rewrite app_nil_r. }
  destruct (dispatch _ _ _ _) as [[key result] rt].
  case_bool_decide as Hreport; simpl.
  - split; [done |]. exists []. by rewrite app_nil_r.
  - destruct (IH {| runtime := rt;
                    contents := contents st ++
                      [ {| role := "model";
                           parts := [functionCall_part (name call) (Js.Obj (args call))] |};
                        {| role := "user";
                           parts := [functionResponse_part (name call) key result] |} ];
                    history := history st ++
                      [ {| call_name := Js.or_else (name call) "unknown";
                           call_args := Js.Obj (args call);
                           call_result := result; call_key := key |} ];
                    responses := responses st |}) as (Hresp & more & Hmore & Hlen).
    simpl in *. split; [done |]. eexists. rewrite Hmore, <- app_assoc. split; [done |].
    intros Hnone. rewrite length_app, (Hlen Hnone). simpl. lia.
Qed.

(** A batch of calls sends no request to the model. *)
Lemma processCalls_requests calls (st : State W) :
  requestsOf (trace (runtime (processCalls tools calls st).2)) = requestsOf (trace (runtime st)).
Proof.
  assert (∀ n a (rt : Runtime W),
            requestsOf (trace (dispatch tools n a rt).2) = requestsOf (trace rt)) as Hdispatch.
  { intros n a rt. unfold dispatch. destruct (negb (Js.truthy n)); simpl.
    - by rewrite requestsOf_snoc, app_nil_r.
    - unfold runAiFunction. destruct (aiFunctionsMap tools !! default "" n) as [f|]; simpl.
      + destruct (implementation f a (world rt)) as [[result|e] w']; simpl;
          by rewrite !requestsOf_snoc, !app_nil_r.
      + by rewrite requestsOf_snoc, app_nil_r. }
  revert st. induction calls as [|call rest IH]; intros st; simpl; [done |].
  pose proof (Hdispatch (name call) (Js.Obj (args call))
                (log debug ("🔧 Agent calling tool: " +:+ Js.show (name call) +:+ " with args:")
                     (runtime st))) as Hq.
  destruct (dispatch _ _ _ _) as [[key result] rt]. simpl in Hq.
  rewrite requestsOf_snoc, app_nil_r in Hq.
  case_bool_decide; simpl.
  - by rewrite requestsOf_snoc, app_nil_r.
  - by rewrite IH.
Qed.

(** The request of iteration [i], and the text that the iteration records. *)
Definition instructionAt (N i : nat) : string :=
  replace "{maxIterations}" (pretty N)
    (replace "{remainingIterations}" (pretty (Z.of_nat N - Z.of_nat i - 1)%Z) systemInstruction).

Definition requestAt (N i : nat) (conversation : list Content) : GenerateContentParameters :=
  {| model := "gemini-2.5-pro"; GenAI.contents := conversation;
     functionDeclarations :=
       ["readFile"; "listDir"; "buildImage"; "createContainer"; "executeCommand"; "report"];
     GenAI.systemInstruction := instructionAt N i |}.

Definition said (i : nat) (r : completion GenerateContentResponse) : option AgentResponse :=
  match r with
  | Normal response =>
      if Js.truthy (text response)
      then Some {| iteration := i + 1; response_text := Js.show (text response) |}
      else None
  | Throw _ => None
  end.

Lemma askModel_state N i (st : State W) :
  history (askModel tools systemInstruction N i st).2 = history st ∧
  contents (askModel tools systemInstruction N i st).2 = contents st ∧
  implementationsRun (trace (runtime (askModel tools systemInstruction N i st).2))
  = implementationsRun (trace (runtime st)) ∧
  requestsOf (trace (runtime (askModel tools systemInstruction N i st).2))
  = requestsOf (trace (runtime st)) ++ [requestAt N i (contents st)] ∧
  responses (askModel tools systemInstruction N i st).2
  = responses st ++ option_list (said i (askModel tools systemInstruction N i st).1).
Proof.
  unfold askModel. fold (instructionAt N i).
  change (declarations tools)
    with ["readFile"; "listDir"; "buildImage"; "createContainer"; "executeCommand"; "report"].
  fold (requestAt N i (contents st)).
  destruct (generateContent _ _) as [[response|e] w']; simpl.
  - destruct (Js.truthy (text response)) eqn:Htext; simpl;
      rewrite ?implementationsRun_snoc, ?requestsOf_snoc, ?Htext; simpl; by rewrite ?app_nil_r.
  - by rewrite implementationsRun_snoc, requestsOf_snoc, !app_nil_r.
Qed.


(** The texts that the iterations from [i] on record. *)
Fixpoint texts (i : nat) (rs : list (completion GenerateContentResponse)) : list AgentResponse :=
  match rs with
  | [] => []
  | r :: rest => option_list (said i r) ++ texts (S i) rest
  end.

(** The lengths of the conversations sent in a sequence of turns, from a
    conversation of [n] entries on: two more for every call of a turn. *)
Fixpoint lengths (n : nat) (rs : list (completion GenerateContentResponse)) : list nat :=
  match rs with
  | [] => []
  | r :: rest => n :: lengths (n + 2 * length (callsOf r)) rest
  end.

(** Every conversation of the list begins with the one before it. *)
Fixpoint chain (convs : list (list Content)) : Prop :=
  match convs with
  | a :: rest =>
      match rest with
      | b :: _ => a `prefix_of` b
      | [] => True
      end ∧ chain rest
  | [] => True
  end.


(** The loop, by its calls: the records it adds to the history and the
    implementations it runs are those of the calls that the model
    requested, up to the first finalize call. *)
Lemma iterations_calls N todo i (st : State W) :
  ∃ rs,
    responsesOf (trace (runtime (iterations tools systemInstruction N todo i st).2))
    = responsesOf (trace (runtime st)) ++ rs ∧
    map recorded (history (iterations tools systemInstruction N todo i st).2)
    = map recorded (history st) ++ map asked (upToReport (requested rs)) ∧
    implementationsRun (trace (runtime (iterations tools systemInstruction N todo i st).2))
    = implementationsRun (trace (runtime st)) ++ declaredNames (upToReport (requested rs)).
Proof.
  apply (iterations_cases N (λ todo i st out, ∃ rs,
    responsesOf (trace (runtime out.2)) = responsesOf (trace (runtime st)) ++ rs ∧
    map recorded (history out.2)
    = map recorded (history st) ++ map asked (upToReport (requested rs)) ∧
    implementationsRun (trace (runtime out.2))
    = implementationsRun (trace (runtime st)) ++ declaredNames (upToReport (requested rs))));
    clear todo i st.
  - intros i st. exists []. simpl. by rewrite !app_nil_r.
  - intros todo i st e st1 Hask.
    pose proof (askModel_trace tools systemInstruction N i st) as [Hresp _].
    pose proof (askModel_state N i st) as (Hhist & _ & Himpl & _).
    rewrite Hask in Hresp, Hhist, Himpl. simpl in *.
    exists [Throw e]. rewrite Hresp, Hhist, Himpl. simpl. by rewrite !app_nil_r.
  - intros todo i st response st1 Hask Hcalls.
    pose proof (askModel_trace tools systemInstruction N i st) as [Hresp _].
    pose proof (askModel_state N i st) as (Hhist & _ & Himpl & _).
    rewrite Hask in Hresp, Hhist, Himpl. simpl in *.
    exists [Normal response].
    rewrite responsesOf_snoc, implementationsRun_snoc, Hresp, Hhist, Himpl.
    unfold requested. simpl. rewrite Hcalls. simpl. by rewrite !app_nil_r.
  - intros todo i st response st1 v st2 Hask Hcalls Hprocess.
    pose proof (askModel_trace tools systemInstruction N i st) as [Hresp _].
    pose proof (askModel_state N i st) as (Hhist & _ & Himpl & _).
    rewrite Hask in Hresp, Hhist, Himpl. simpl in *.
    pose proof (processCalls_quiet tools (default [] (functionCalls response)) st1) as [Hq _].
    pose proof (processCalls_calls (default [] (functionCalls response)) st1)
      as (Hhist2 & Himpl2 & _).
    rewrite Hprocess in Hq, Hhist2, Himpl2. simpl in *.
    exists [Normal response]. unfold requested. simpl. rewrite app_nil_r.
    by rewrite Hq, Hresp, Hhist2, Himpl2, Hhist, Himpl.
  - intros todo i st response st1 st2 Hask Hcalls Hprocess (rs & Hrs & Hhistory & Himpls).
    pose proof (askModel_trace tools systemInstruction N i st) as [Hresp _].
    pose proof (askModel_state N i st) as (Hhist & _ & Himpl & _).
    rewrite Hask in Hresp, Hhist, Himpl. simpl in *.
    pose proof (processCalls_quiet tools (default [] (functionCalls response)) st1) as [Hq _].
    pose proof (processCalls_calls (default [] (functionCalls response)) st1)
      as (Hhist2 & Himpl2 & Hflow).
    rewrite Hprocess in Hq, Hhist2, Himpl2, Hflow. simpl in *.
    assert (firstReport (default [] (functionCalls response)) = None) as Hnone.
    { by destruct (firstReport (default [] (functionCalls response))). }
    exists (Normal response :: rs). unfold requested in *. simpl.
    rewrite (upToReport_without _ _ Hnone), Hrs, Hhistory, Himpls, Hq, Hresp.
    rewrite Hhist2, Himpl2, Hhist, Himpl.
    assert (upToReport (default [] (functionCalls response) ++ [])
            = default [] (functionCalls response)) as Hall.
    { by rewrite (upToReport_without _ _ Hnone), app_nil_r. }
    rewrite app_nil_r in Hall. rewrite Hall.
    unfold declaredNames. rewrite !omap_app, !filter_app, !map_app, <- !app_assoc. done.
Qed.

(** What a run shows of the state in which its loop ended. *)
Lemma run_observed (initialPrompt : string) (N : nat) (w : W) :
  let out := iterations tools systemInstruction N N 0 (initialState initialPrompt w) in
  let run := reproduceWithGemini tools systemInstruction initialPrompt N w in
  responsesOf (trace run.2) = responsesOf (trace (runtime out.2)) ∧
  implementationsRun (trace run.2) = implementationsRun (trace (runtime out.2)) ∧
  requestsOf (trace run.2) = requestsOf (trace (runtime out.2)) ∧
  match run.1 with
  | Normal result =>
      functionCallHistory result = history out.2 ∧ agentResponses result = responses out.2
  | Throw _ => True
  end.
Proof.
  intros out run. subst out run. unfold reproduceWithGemini.
  fold (initialState initialPrompt w).
  destruct (iterations tools systemInstruction N N 0 (initialState initialPrompt w))
    as [[| |v|e] st]; simpl;
    rewrite ?responsesOf_snoc, ?implementationsRun_snoc, ?requestsOf_snoc, ?app_nil_r; done.
Qed.

(** The call history of a run that returns holds one record for every call
    that the model requested, in the order of the requests, up to and
    including the first call of the finalize tool: the name of the call, or
    'unknown' for a call without a name, and its arguments.  Calls that
    failed are recorded like the others. *)
Theorem history_is_the_requested_calls (initialPrompt : string) (N : nat) (w : W) :
  let run := reproduceWithGemini tools systemInstruction initialPrompt N w in
  match run.1 with
  | Normal result =>
      map recorded (functionCallHistory result)
      = map asked (upToReport (requested (responsesOf (trace run.2))))
  | Throw _ => True
  end.
Proof.
  intros run. subst run.
  destruct (run_observed initialPrompt N w) as (Hresp & _ & _ & Hresult).
  destruct (iterations_calls N N 0 (initialState initialPrompt w)) as (rs & Hrs & Hhistory & _).
  simpl in Hrs, Hhistory. rewrite <- Hresp in Hrs.
  destruct (reproduceWithGemini tools systemInstruction initialPrompt N w).1
    as [result|e]; [| done].
  destruct Hresult as [-> _]. by rewrite Hhistory, Hrs.
Qed.





Lemma imap_contents (f : nat → list Content → GenerateContentParameters)
    (convs : list (list Content)) :
  (∀ k c, GenAI.contents (f k c) = c) → map GenAI.contents (imap f convs) = convs.
Proof.
  revert f. induction convs as [|c convs IH]; intros f Hf; simpl; [done |].
  rewrite Hf, IH; [done |]. intros k c'. apply Hf.
Qed.

(** The loop, by its requests. *)
Lemma iterations_requests N todo i (st : State W) :
  ∃ rs convs,
    responsesOf (trace (runtime (iterations tools systemInstruction N todo i st).2))
    = responsesOf (trace (runtime st)) ++ rs ∧
    requestsOf (trace (runtime (iterations tools systemInstruction N todo i st).2))
    = requestsOf (trace (runtime st)) ++ imap (λ k, requestAt N (i + k)) convs ∧
    head convs = match todo with O => None | S _ => Some (contents st) end ∧
    chain convs ∧
    map length convs = lengths (length (contents st)) rs.
Proof.
  apply (iterations_cases N (λ todo i st out, ∃ rs convs,
    responsesOf (trace (runtime out.2)) = responsesOf (trace (runtime st)) ++ rs ∧
    requestsOf (trace (runtime out.2))
    = requestsOf (trace (runtime st)) ++ imap (λ k, requestAt N (i + k)) convs ∧
    head convs = match todo with O => None | S _ => Some (contents st) end ∧
    chain convs ∧
    map length convs = lengths (length (contents st)) rs)); clear todo i st.
  - intros i st. exists [], []. simpl. by rewrite !app_nil_r.
  - intros todo i st e st1 Hask.
    pose proof (askModel_trace tools systemInstruction N i st) as [Hresp _].
    pose proof (askModel_state N i st) as (_ & _ & _ & Hreq & _).
    rewrite Hask in Hresp, Hreq. simpl in *.
    exists [Throw e], [contents st]. simpl. by rewrite Hresp, Hreq, Nat.add_0_r.
  - intros todo i st response st1 Hask Hcalls.
    pose proof (askModel_trace tools systemInstruction N i st) as [Hresp _].
    pose proof (askModel_state N i st) as (_ & _ & _ & Hreq & _).
    rewrite Hask in Hresp, Hreq. simpl in *.
    exists [Normal response], [contents st]. simpl.
    by rewrite responsesOf_snoc, requestsOf_snoc, Hresp, Hreq, Nat.add_0_r, !app_nil_r.
  - intros todo i st response st1 v st2 Hask Hcalls Hprocess.
    pose proof (askModel_trace tools systemInstruction N i st) as [Hresp _].
    pose proof (askModel_state N i st) as (_ & _ & _ & Hreq & _).
    rewrite Hask in Hresp, Hreq. simpl in *.
    pose proof (processCalls_quiet tools (default [] (functionCalls response)) st1) as [Hq _].
    pose proof (processCalls_requests (default [] (functionCalls response)) st1) as Hsame.
    rewrite Hprocess in Hq, Hsame. simpl in *.
    exists [Normal response], [contents st]. simpl.
    by rewrite Hq, Hsame, Hresp, Hreq, Nat.add_0_r.
  - intros todo i st response st1 st2 Hask Hcalls Hprocess
      (rs & convs & Hrs & Hreqs & Hhead & Hchain & Hlens).
    pose proof (askModel_trace tools systemInstruction N i st) as [Hresp _].
    pose proof (askModel_state N i st) as (_ & Hcontents & _ & Hreq & _).
    rewrite Hask in Hresp, Hreq, Hcontents. simpl in *.
    pose proof (processCalls_quiet tools (default [] (functionCalls response)) st1) as [Hq _].
    pose proof (processCalls_requests (default [] (functionCalls response)) st1) as Hsame.
    pose proof (processCalls_calls (default [] (functionCalls response)) st1) as (_ & _ & Hflow).
    pose proof (processCalls_conversation (default [] (functionCalls response)) st1)
      as (_ & more & Hmore & Hlen).
    rewrite Hprocess in Hq, Hsame, Hflow, Hmore. simpl in *.
    assert (firstReport (default [] (functionCalls response)) = None) as Hnone.
    { by destruct (firstReport (default [] (functionCalls response))). }
    specialize (Hlen Hnone). rewrite Hcontents in Hmore.
    exists (Normal response :: rs), (contents st :: convs). simpl.
    rewrite Hrs, Hreqs, Hq, Hsame, Hresp, Hreq, Nat.add_0_r, <- !app_assoc. simpl.
    split; [done |]. split.
    { do 2 f_equal. apply imap_ext. intros k c _. simpl. f_equal. lia. }
    split; [done |]. split.
    { split; [| done]. destruct convs as [|c convs]; [done |].
      destruct todo; simpl in Hhead; [done |]. injection Hhead as ->.
      rewrite Hmore. by apply prefix_app_r. }
    f_equal. rewrite Hlens, Hmore, length_app, Hlen. done.
Qed.

(** The requests of a run.  The request of iteration k (from 0) names the
    model gemini-2.5-pro, declares the six tools and carries the system
    instruction with maxIterations and maxIterations - k - 1 remaining
    iterations filled in.  The first request carries the prompt alone, the
    conversation of every request begins with the conversation of the
    request before it, and a turn of the model adds two entries for each of
    its calls to the conversation of the next request. *)
Theorem requests_follow_the_conversation (initialPrompt : string) (N : nat) (w : W) :
  let run := reproduceWithGemini tools systemInstruction initialPrompt N w in
  let requests := requestsOf (trace run.2) in
  let conversations := map GenAI.contents requests in
  requests = imap (requestAt N) conversations ∧
  head conversations
  = match N with
    | O => None
    | S _ => Some [ {| role := "user"; parts := [text_part initialPrompt] |} ]
    end ∧
  chain conversations ∧
  map length conversations = lengths 1 (responsesOf (trace run.2)).
Proof.
  intros run requests conversations. subst run requests conversations.
  destruct (run_observed initialPrompt N w) as (Hresp & _ & Hreq & _).
  destruct (iterations_requests N N 0 (initialState initialPrompt w))
    as (rs & convs & Hrs & Hreqs & Hhead & Hchain & Hlens).
  simpl in Hrs, Hreqs, Hhead, Hlens. rewrite <- Hresp in Hrs. rewrite <- Hreq in Hreqs.
  rewrite Hreqs, Hrs, imap_contents by done. done.
Qed.

(** The loop, by the texts it records. *)
Lemma iterations_texts N todo i (st : State W) :
  ∃ rs,
    responsesOf (trace (runtime (iterations tools systemInstruction N todo i st).2))
    = responsesOf (trace (runtime st)) ++ rs ∧
    responses (iterations tools systemInstruction N todo i st).2
    = responses st ++ texts i rs.
Proof.
  apply (iterations_cases N (λ todo i st out, ∃ rs,
    responsesOf (trace (runtime out.2)) = responsesOf (trace (runtime st)) ++ rs ∧
    responses out.2 = responses st ++ texts i rs)); clear todo i st.
  - intros i st. exists []. simpl. by rewrite !app_nil_r.
  - intros todo i st e st1 Hask.
    pose proof (askModel_trace tools systemInstruction N i st) as [Hresp _].
    pose proof (askModel_state N i st) as (_ & _ & _ & _ & Htext).
    rewrite Hask in Hresp, Htext. simpl in *.
    exists [Throw e]. simpl. by rewrite Hresp, Htext.
  - intros todo i st response st1 Hask Hcalls.
    pose proof (askModel_trace tools systemInstruction N i st) as [Hresp _].
    pose proof (askModel_state N i st) as (_ & _ & _ & _ & Htext).
    rewrite Hask in Hresp, Htext. simpl in *.
    exists [Normal response]. simpl.
    by rewrite responsesOf_snoc, Hresp, Htext, !app_nil_r.
  - intros todo i st response st1 v st2 Hask Hcalls Hprocess.
    pose proof (askModel_trace tools systemInstruction N i st) as [Hresp _].
    pose proof (askModel_state N i st) as (_ & _ & _ & _ & Htext).
    rewrite Hask in Hresp, Htext. simpl in *.
    pose proof (processCalls_quiet tools (default [] (functionCalls response)) st1) as [Hq _].
    pose proof (processCalls_conversation (default [] (functionCalls response)) st1)
      as (Hsame & _).
    rewrite Hprocess in Hq, Hsame. simpl in *.
    exists [Normal response]. simpl. by rewrite Hq, Hsame, Hresp, Htext, !app_nil_r.
  - intros todo i st response st1 st2 Hask Hcalls Hprocess (rs & Hrs & Htexts).
    pose proof (askModel_trace tools systemInstruction N i st) as [Hresp _].
    pose proof (askModel_state N i st) as (_ & _ & _ & _ & Htext).
    rewrite Hask in Hresp, Htext. simpl in *.
    pose proof (processCalls_quiet tools (default [] (functionCalls response)) st1) as [Hq _].
    pose proof (processCalls_conversation (default [] (functionCalls response)) st1)
      as (Hsame & _).
    rewrite Hprocess in Hq, Hsame. simpl in *.
    exists (Normal response :: rs). simpl.
    by rewrite Hrs, Htexts, Hq, Hsame, Hresp, Htext, <- !app_assoc.
Qed.

(** The agent responses of a run that returns are the texts of the turns
    of the model, in order: one entry for every turn with a non-empty text,
    numbered from 1 by the iteration of the turn; a turn without text
    leaves no entry, and its iteration number is not used again. *)
Theorem agent_responses_are_the_texts (initialPrompt : string) (N : nat) (w : W) :
  let run := reproduceWithGemini tools systemInstruction initialPrompt N w in
  match run.1 with
  | Normal result => agentResponses result = texts 0 (responsesOf (trace run.2))
  | Throw _ => True
  end.
Proof.
  intros run. subst run.
  destruct (run_observed initialPrompt N w) as (Hresp & _ & _ & Hresult).
  destruct (iterations_texts N N 0 (initialState initialPrompt w)) as (rs & Hrs & Htexts).
  simpl in Hrs, Htexts. rewrite <- Hresp in Hrs.
  destruct (reproduceWithGemini tools systemInstruction initialPrompt N w).1
    as [result|e]; [| done].
  destruct Hresult as [_ ->]. by rewrite Htexts, Hrs.
Qed.

End Facts.

(** Two turns: a declared call, a call without a name and an undeclared
    call; then the finalize call, followed by a call that is not run. *)
Example run_with_report_in_the_second_turn :
  let run :=
    reproduceWithGemini Scripted.reproducerTools
      "Iterations left: {remainingIterations} of {maxIterations}." "Reproduce the issue." 5
      [ Scripted.turn [ Scripted.request "readFile" [("path", Js.Str "package.json")];
                        {| name := None; args := [] |};
                        Scripted.request "deploy" [] ];
        Scripted.turn [ Scripted.request "report" [("status", Js.Str "failure")];
                        Scripted.request "readFile" [("path", Js.Str "README.md")] ] ] in
  implementationsRun (trace run.2) = ["readFile"; "report"] ∧
  (∃ result,
      run.1 = Normal result ∧
      finalResult result = Some (Js.Obj [("status", Js.Str "failure")]) ∧
      map call_name (functionCallHistory result) = ["readFile"; "unknown"; "deploy"; "report"] ∧
      map call_key (functionCallHistory result)
      = [GenAI.output; GenAI.error; GenAI.error; GenAI.output]) ∧
  map (λ request, (length (GenAI.contents request), GenAI.systemInstruction request))
      (requestsOf (trace run.2))
  = [ (1%nat, "Iterations left: 4 of 5."); (7%nat, "Iterations left: 3 of 5.") ].
Proof. vm_compute. split; [done | split; [eexists; done | done]]. Qed.

End ReproducerMoreFacts.

(** *** The search for candidate issues *)

Module FindFacts.
Import Find.

Section Facts.
Context {Env : Type} `{!Search Env}.

Lemma say_keeps verbose line (w : World Env) :
  env (say verbose line w) = env w ∧
  requests (say verbose line w) = requests w ∧
  disk (say verbose line w) = disk w.
Proof. by destruct verbose. Qed.

(** The loop over the repository pages asks for the pages one after the
    other and does not touch the disk. *)
Lemma fetchRepoPages_requests q pages perPage verbose todo page repos (w : World Env) :
  disk (fetchRepoPages q pages perPage verbose todo page repos w).2 = disk w ∧
  ∃ k, (k ≤ todo)%nat ∧
    requests (fetchRepoPages q pages perPage verbose todo page repos w).2
    = requests w ++ map (SearchRepos q perPage) (seq page k) ∧
    match (fetchRepoPages q pages perPage verbose todo page repos w).1 with
    | Normal _ => k = todo
    | Throw _ => (1 ≤ k)%nat
    end.
Proof.
  revert page repos w. induction todo as [|todo IH]; intros page repos w; simpl.
  { split; [done |]. exists 0%nat. simpl. by rewrite app_nil_r. }
  destruct (say_keeps verbose
              (Info ("Fetching repo page " +:+ pretty page +:+ "/" +:+ pretty pages +:+ "..."))
              w) as (Henv & Hreq & Hdisk).
  destruct (search_repos q perPage page _) as [[items|e] env'].
  - destruct (IH (S page) (repos ++ items)
                (send (SearchRepos q perPage page) env'
                   (say verbose
                      (Info ("Fetching repo page " +:+ pretty page +:+ "/" +:+ pretty pages
                               +:+ "...")) w)))
      as (Hd & k & Hk & Hrequests & Hend).
    simpl in Hd, Hrequests. split; [by rewrite Hd |].
    exists (S k). split; [lia |]. rewrite Hrequests, Hreq, <- app_assoc. split; [done |].
    destruct (fetchRepoPages _ _ _ _ _ _ _ _).1; lia.
  - simpl. split; [done |]. exists 1%nat. split; [lia |]. by rewrite Hreq.
Qed.

(** The requests of [fetchRepos].  It asks for the pages 1, 2, ... in
    order, each with the query and the page size, and for no page beyond
    repoPages.  When it returns, it has asked for every page or, answering
    from the cache file, for none; when the API fails, it stops at the page
    that failed and writes nothing to the disk. *)
Theorem fetchRepos_asks_the_pages_in_order (q : string) (pages perPage : nat)
    (cacheFile : option string) (verbose : bool) (w : World Env) :
  let run := fetchRepos q pages perPage cacheFile verbose w in
  ∃ k, (k ≤ pages)%nat ∧
    requests run.2 = requests w ++ map (SearchRepos q perPage) (seq 1 k) ∧
    match run.1 with
    | Normal _ => k = pages ∨ (k = 0%nat ∧ disk run.2 = disk w)
    | Throw _ => (1 ≤ k)%nat ∧ disk run.2 = disk w
    end.
Proof.
  intros run. subst run. unfold fetchRepos.
  set (cached := if Js.truthy cacheFile then _ else None). destruct cached as [cache|].
  - exists 0%nat. simpl.
    destruct (say_keeps verbose (Info ("Using cached repos for query: " +:+ q)) w)
      as (_ & -> & ->).
    rewrite app_nil_r. split; [lia | split; [done | by right]].
  - destruct (say_keeps verbose
                (Info ("Fetching repos with query: " +:+ q +:+ ", pages: " +:+ pretty pages
                         +:+ ", per page: " +:+ pretty perPage)) w) as (_ & Hreq & Hdisk).
    destruct (fetchRepoPages_requests q pages perPage verbose pages 1 []
                (say verbose
                   (Info ("Fetching repos with query: " +:+ q +:+ ", pages: " +:+ pretty pages
                            +:+ ", per page: " +:+ pretty perPage)) w))
      as (Hd & k & Hk & Hrequests & Hend).
    destruct (fetchRepoPages _ _ _ _ _ _ _ _) as [[repos|e] w1]; simpl in *.
    + exists k. split; [lia |].
      match goal with |- context [say verbose ?line ?w'] =>
        destruct (say_keeps verbose line w') as (_ & -> & _) end.
      split; [| by left]. destruct (Js.truthy cacheFile); simpl; by rewrite Hrequests, Hreq.
    + exists k. rewrite Hrequests, Hreq, Hd, Hdisk. done.
Qed.

(** Round trip through the cache file: after [fetchRepos] has returned a
    list for a named cache file, a call with the same query and page size
    and with no more pages returns the same list from the file, without a
    request to the API, also when it asks for fewer pages than the file
    holds. *)
Theorem fetchRepos_answers_from_its_cache_file (repoQuery file : string)
    (repoPages repoPages' repoPerPage : nat) (verbose verbose' : bool) (w w1 : World Env)
    (found : list Repo) :
  file ≠ "" →
  (repoPages' ≤ repoPages)%nat →
  fetchRepos repoQuery repoPages repoPerPage (Some file) verbose w = (Normal found, w1) →
  fetchRepos repoQuery repoPages' repoPerPage (Some file) verbose' w1
  = (Normal found, say verbose' (Info ("Using cached repos for query: " +:+ repoQuery)) w1).
Proof.
  intros Hfile Hpages. unfold fetchRepos. simpl.
  rewrite (bool_decide_eq_false_2 (file = "")) by done. simpl.
  destruct (disk w !! file) as [cache|] eqn:Hcache.
  - destruct (bool_decide (query cache = repoQuery) && bool_decide (repoPages ≤ pages cache)%nat
              && bool_decide (perPage cache = repoPerPage)) eqn:Hhit.
    + (* the first call was itself answered from the file *)
      intros [= <- <-].
      destruct (say_keeps verbose (Info ("Using cached repos for query: " +:+ repoQuery)) w)
        as (_ & _ & ->).
      rewrite Hcache.
      apply andb_prop in Hhit as [Hhit Hper]. apply andb_prop in Hhit as [Hquery Hfit].
      apply bool_decide_eq_true in Hquery, Hfit, Hper.
      rewrite (bool_decide_eq_true_2 (query cache = repoQuery)) by done.
      rewrite (bool_decide_eq_true_2 (repoPages' ≤ pages cache)%nat) by lia.
      by rewrite (bool_decide_eq_true_2 (perPage cache = repoPerPage)) by done.
    + destruct (fetchRepoPages _ _ _ _ _ _ _ _) as [[items|e] w2]; [| done].
      intros [= <- <-].
      match goal with |- context [disk (say verbose ?line ?w')] =>
        destruct (say_keeps verbose line w') as (_ & _ & ->) end.
      simpl. rewrite lookup_insert_eq. simpl.
      rewrite !bool_decide_eq_true_2 by done. done.
  - destruct (fetchRepoPages _ _ _ _ _ _ _ _) as [[items|e] w2]; [| done].
    intros [= <- <-].
    match goal with |- context [disk (say verbose ?line ?w')] =>
      destruct (say_keeps verbose line w') as (_ & _ & ->) end.
    simpl. rewrite lookup_insert_eq. simpl.
    rewrite !bool_decide_eq_true_2 by done. done.
Qed.

(** An invariant of the issues collected, kept by every page, is kept by
    the loops. *)
Lemma fetchIssuePages_invariant (I : Collected → Prop) fullName stars searchQuery issuePerPage
    verbose todo page after (c : Collected) (w : World Env) :
  (∀ edges c, I c → I (collect fullName stars edges c)) →
  I c →
  match (fetchIssuePages fullName stars searchQuery issuePerPage verbose todo page after c w).1
  with
  | Normal c' => I c'
  | Throw _ => True
  end.
Proof.
  intros Hcollect. revert page after c w.
  induction todo as [|todo IH]; intros page after c w Hc; simpl; [done |].
  destruct (graphql searchQuery issuePerPage after _) as [[data|e] env']; [| done].
  destruct (hasNextPage data); simpl; [apply IH |]; by apply Hcollect.
Qed.

Lemma fetchIssuesFrom_invariant (I : Collected → Prop) cutoff issuePages issuePerPage verbose
    total i (repos : list Repo) (c : Collected) (w : World Env) :
  (∀ repo edges c, repo ∈ repos →
     I c → I (collect (full_name repo) (stargazers_count repo) edges c)) →
  I c →
  match (fetchIssuesFrom cutoff issuePages issuePerPage verbose total i repos c w).1 with
  | Normal c' => I c'
  | Throw _ => True
  end.
Proof.
  revert i c w. induction repos as [|repo rest IH]; intros i c w Hcollect Hc; simpl; [done |].
  match goal with |- context [fetchIssuePages ?n ?s ?q ?pp ?v ?t ?p ?a ?c0 ?w0] =>
    pose proof (fetchIssuePages_invariant I n s q pp v t p a c0 w0) as Hpages;
    destruct (fetchIssuePages n s q pp v t p a c0 w0) as [[c1|e] w1] end; [| done].
  simpl in Hpages. apply IH.
  - intros repo' edges c' Hin. apply Hcollect. by apply elem_of_cons; right.
  - apply Hpages; [| done]. intros edges c'. apply Hcollect. apply list_elem_of_here.
Qed.




(** Where an issue comes from. *)
Definition attributed (repos : list Repo) (c : Collected) : Prop :=
  Forall (λ entry, ∃ r, r ∈ repos ∧ repo entry = full_name r ∧ stars entry = stargazers_count r
                        ∧ (String.length (created entry) ≤ 10)%nat)
         (results c).

Lemma substring_length n m s : (String.length (String.substring n m s) ≤ m)%nat.
Proof.
  revert n m. induction s as [|ch s IH]; intros n m; simpl.
  - destruct n, m; simpl; lia.
  - destruct n as [|n]; [destruct m as [|m]; simpl; [lia |] | apply IH].
    specialize (IH 0%nat m). lia.
Qed.

Lemma collect_attributed repos r edges (c : Collected) :
  r ∈ repos → attributed repos c →
  attributed repos (collect (full_name r) (stargazers_count r) edges c).
Proof.
  intros Hr. revert c. induction edges as [|issue rest IH]; intros c Hc; simpl; [done |].
  apply IH. case_bool_decide as Hseen; [done |].
  unfold attributed. simpl. apply Forall_app. split; [done |].
  apply List.Forall_cons; [| apply List.Forall_nil]. exists r. simpl.
  split_and!; [done | done | done | apply substring_length].
Qed.

(** Every issue that [fetchIssues] returns carries the name and the star
    count of one of the repositories it was given, and a creation date of
    at most ten characters. *)
Theorem fetchIssues_attributes_to_a_repository (repos : list Repo) (cutoff : string)
    (issuePages issuePerPage : nat) (verbose : bool) (w : World Env) :
  match (fetchIssues repos cutoff issuePages issuePerPage verbose w).1 with
  | Normal found =>
      Forall (λ entry, ∃ r, r ∈ repos ∧ repo entry = full_name r ∧
                            stars entry = stargazers_count r ∧
                            (String.length (created entry) ≤ 10)%nat) found
  | Throw _ => True
  end.
Proof.
  unfold fetchIssues.
  match goal with |- context [fetchIssuesFrom ?c ?ip ?ipp ?v ?t ?i ?rs ?c0 ?w0] =>
    pose proof (fetchIssuesFrom_invariant (attributed repos) c ip ipp v t i rs c0 w0) as Hinv;
    destruct (fetchIssuesFrom c ip ipp v t i rs c0 w0) as [[c1|e] w1] end; [| done].
  simpl in *. apply Hinv.
  - intros r edges c Hr. by apply collect_attributed.
  - apply List.Forall_nil.
Qed.

(** The search query for the issues of a repository. *)
Definition searchQueryFor (cutoff fullName : string) : string :=
  "repo:" +:+ fullName +:+ " (" +:+ quoted "flaky" +:+ " OR " +:+ quoted "flakey"
    +:+ " OR " +:+ quoted "intermittent" +:+ ") created:>" +:+ cutoff +:+ " is:issue is:open".

Lemma fetchIssuePages_requests fullName stars searchQuery issuePerPage verbose todo page after
    (c : Collected) (w : World Env) :
  disk (fetchIssuePages fullName stars searchQuery issuePerPage verbose todo page after c w).2
  = disk w ∧
  ∃ sent,
    requests (fetchIssuePages fullName stars searchQuery issuePerPage verbose todo page after c w).2
    = requests w ++ sent ∧
    (length sent ≤ todo)%nat ∧
    Forall (λ r, ∃ cursor, r = SearchIssues searchQuery issuePerPage cursor) sent ∧
    head sent = match todo with
                | O => None
                | S _ => Some (SearchIssues searchQuery issuePerPage after)
                end.
Proof.
  revert page after c w. induction todo as [|todo IH]; intros page after c w; simpl.
  { split; [done |]. exists []. rewrite app_nil_r.
    split_and!; [done | done | apply List.Forall_nil | done]. }
  destruct (say_keeps verbose
              (Info ("  Fetching issues page " +:+ pretty page +:+ " for " +:+ fullName +:+ "..."))
              w) as (Henv & Hreq & Hdisk).
  destruct (graphql searchQuery issuePerPage after _) as [[data|e] env'].
  - destruct (hasNextPage data); simpl.
    + match goal with |- context [fetchIssuePages _ _ _ _ _ todo ?p ?a ?c0 ?w0] =>
        destruct (IH p a c0 w0) as (Hd & sent & Hsent & Hlen & Hall & _);
        assert (disk w0 = disk w ∧
                requests w0 = requests w ++ [SearchIssues searchQuery issuePerPage after])
          as [Hd0 Hr0] end.
      { match goal with |- context [say verbose ?line ?w'] =>
          destruct (say_keeps verbose line w') as (_ & -> & ->) end.
        simpl. by rewrite Hreq, Hdisk. }
      rewrite Hd, Hsent, Hd0, Hr0, <- app_assoc. split; [done |].
      exists (SearchIssues searchQuery issuePerPage after :: sent). simpl.
      split_and!; [done | lia | | done]. apply List.Forall_cons; [by eexists | done].
    + match goal with |- context [say verbose ?line ?w'] =>
        destruct (say_keeps verbose line w') as (_ & -> & ->) end.
      simpl. rewrite Hreq, Hdisk. split; [done |].
      exists [SearchIssues searchQuery issuePerPage after]. simpl.
      split_and!; [done | lia | | done].
      apply List.Forall_cons; [by eexists | apply List.Forall_nil].
  - simpl. rewrite Hreq, Hdisk. split; [done |].
    exists [SearchIssues searchQuery issuePerPage after]. simpl.
    split_and!; [done | lia | | done].
    apply List.Forall_cons; [by eexists | apply List.Forall_nil].
Qed.

Lemma fetchIssuesFrom_requests cutoff issuePages issuePerPage verbose total i
    (repos : list Repo) (c : Collected) (w : World Env) :
  disk (fetchIssuesFrom cutoff issuePages issuePerPage verbose total i repos c w).2 = disk w ∧
  ∃ sent,
    requests (fetchIssuesFrom cutoff issuePages issuePerPage verbose total i repos c w).2
    = requests w ++ sent ∧
    (length sent ≤ length repos * issuePages)%nat ∧
    Forall (λ r, ∃ repo cursor, repo ∈ repos ∧
                 r = SearchIssues (searchQueryFor cutoff (full_name repo)) issuePerPage cursor)
           sent.
Proof.
  revert i c w. induction repos as [|repo rest IH]; intros i c w; simpl.
  { split; [done |]. exists []. rewrite app_nil_r.
    split_and!; [done | done | apply List.Forall_nil]. }
  fold (searchQueryFor cutoff (full_name repo)).
  match goal with |- context [fetchIssuePages ?n ?s ?q ?pp ?v ?t ?p ?a ?c0 (say verbose ?line w)] =>
    destruct (say_keeps verbose line w) as (_ & Hreq & Hdisk);
    destruct (fetchIssuePages_requests n s q pp v t p a c0 (say verbose line w))
      as (Hd & sent & Hsent & Hlen & Hall & _);
    destruct (fetchIssuePages n s q pp v t p a c0 (say verbose line w)) as [[c1|e] w1]
  end; simpl in *.
  - destruct (IH (S i) c1 w1) as (Hd' & sent' & Hsent' & Hlen' & Hall').
    rewrite Hd', Hsent', Hd, Hsent, Hreq, Hdisk, <- app_assoc. split; [done |].
    exists (sent ++ sent'). rewrite length_app. split_and!; [done | lia |].
    apply Forall_app. split.
    + eapply Forall_impl; [exact Hall |]. intros r [cursor ->].
      exists repo, cursor. split; [apply list_elem_of_here | done].
    + eapply Forall_impl; [exact Hall' |]. intros r (repo' & cursor & Hin & ->).
      exists repo', cursor. split; [by apply elem_of_cons; right | done].
  - rewrite Hd, Hsent, Hreq, Hdisk. split; [done |].
    exists sent. split_and!; [done | lia |].
    eapply Forall_impl; [exact Hall |]. intros r [cursor ->].
    exists repo, cursor. split; [apply list_elem_of_here | done].
Qed.

(** The requests of [fetchIssues]: at most issuePages for each repository,
    every one an issue search for a repository of the list, with the
    keywords and the cutoff date in the query and the page size
    issuePerPage; and no file is written. *)
Theorem fetchIssues_requests_are_bounded (repos : list Repo) (cutoff : string)
    (issuePages issuePerPage : nat) (verbose : bool) (w : World Env) :
  let run := fetchIssues repos cutoff issuePages issuePerPage verbose w in
  disk run.2 = disk w ∧
  ∃ sent,
    requests run.2 = requests w ++ sent ∧
    (length sent ≤ length repos * issuePages)%nat ∧
    Forall (λ r, ∃ repo cursor, repo ∈ repos ∧
                 r = SearchIssues (searchQueryFor cutoff (full_name repo)) issuePerPage cursor)
           sent.
Proof.
  intros run. subst run. unfold fetchIssues.
  match goal with |- context [fetchIssuesFrom ?c ?ip ?ipp ?v ?t ?i ?rs ?c0 (say verbose ?line w)] =>
    destruct (say_keeps verbose line w) as (_ & Hreq & Hdisk);
    destruct (fetchIssuesFrom_requests c ip ipp v t i rs c0 (say verbose line w))
      as (Hd & sent & Hsent & Hlen & Hall);
    destruct (fetchIssuesFrom c ip ipp v t i rs c0 (say verbose line w)) as [[c1|e] w1]
  end; simpl in *.
  - match goal with |- context [say verbose ?line ?w'] =>
      destruct (say_keeps verbose line w') as (_ & -> & ->) end.
    rewrite Hd, Hsent, Hreq, Hdisk. split; [done |]. by exists sent.
  - rewrite Hd, Hsent, Hreq, Hdisk. split; [done |]. by exists sent.
Qed.

End Facts.

Definition vitest : Repo := {| full_name := "vitest-dev/vitest"; stargazers_count := 13000 |}.

Definition jest : Repo := {| full_name := "jestjs/jest"; stargazers_count := 44000 |}.

(** Two pages are fetched and cached; the next call, for one page, is
    answered from the file with both. *)
Lemma fetchRepos_answers_from_its_cache_file_witness :
  let w := Scripted.catalogue [[jest]; [vitest]] [] in
  let first := fetchRepos "language:typescript" 2 1 (Some "repos.json") false w in
  fetchRepos "language:typescript" 1 1 (Some "repos.json") true first.2
  = (Normal [jest; vitest],
     say true (Info "Using cached repos for query: language:typescript") first.2).
Proof.
  intros w first.
  apply (fetchRepos_answers_from_its_cache_file (Env:=Scripted.Catalogue)
           "language:typescript" "repos.json" 2 1 1 false true w first.2 [jest; vitest]).
  - done.
  - lia.
  - vm_compute. reflexivity.
Defined.

Definition flakyIssue (number : string) : IssueNode :=
  {| node_title := "Flaky test"; node_url := "https://github.com/jestjs/jest/issues/" +:+ number;
     node_createdAt := "2025-03-01T10:00:00Z"; node_comments := 3; node_reactions := 1 |}.

(** An issue that the search reports on two pages is returned once; the
    second page ends the search for the repository. *)
Example issue_reported_twice_is_kept_once :
  let w := Scripted.catalogue []
             [ {| edges := [flakyIssue "1"; flakyIssue "2"]; endCursor := Some "Y3Vyc29y";
                  hasNextPage := true |};
               {| edges := [flakyIssue "2"; flakyIssue "3"]; endCursor := None;
                  hasNextPage := false |} ] in
  let run := fetchIssues [jest] "2025-01-01" 5 2 false w in
  (∃ found, run.1 = Normal found ∧
            map url found = map (λ n, "https://github.com/jestjs/jest/issues/" +:+ n)
                              ["1"; "2"; "3"] ∧
            map created found = ["2025-03-01"; "2025-03-01"; "2025-03-01"]) ∧
  requests run.2
  = [ SearchIssues (searchQueryFor "2025-01-01" "jestjs/jest") 2 None;
      SearchIssues (searchQueryFor "2025-01-01" "jestjs/jest") 2 (Some "Y3Vyc29y") ].
Proof. vm_compute. split; [eexists; split; [reflexivity | done] | done]. Qed.

End FindFacts.

(** *** More on the classification agent *)

Module FiltererMoreFacts.
Import GenAI Logger DefineAiFunction Filterer TraceFacts FiltererFacts.

(** The calls before the first call of the finalize tool, and that call. *)
Fixpoint beforeAnalyzeIssue (calls : list FunctionCall) : list FunctionCall :=
  match calls with
  | [] => []
  | call :: rest =>
      if bool_decide (name call = Some "analyzeIssue") then [] else call :: beforeAnalyzeIssue rest
  end.

Fixpoint firstAnalyzeIssue (calls : list FunctionCall) : option FunctionCall :=
  match calls with
  | [] => None
  | call :: rest =>
      if bool_decide (name call = Some "analyzeIssue") then Some call else firstAnalyzeIssue rest
  end.

(** The verdict read from the arguments of the finalize call. *)
Definition verdict (a : list (string * Js.value)) : FiltererResult :=
  {| isFlakyTestIssue := Js.get "isFlakyTestIssue" a;
     confidence := Js.get "confidence" a;
     summary := Js.get "summary" a;
     reasoning := Js.get "reasoning" a;
     environment := Js.get "environment" a |}.

(** The names of the exploration tools among the calls. *)
Definition explored (calls : list FunctionCall) : list string :=
  filter (λ n, n ∈ ["readFile"; "listDir"]) (omap name calls).

Lemma beforeAnalyzeIssue_without calls rest :
  firstAnalyzeIssue calls = None →
  beforeAnalyzeIssue (calls ++ rest) = calls ++ beforeAnalyzeIssue rest.
Proof.
  induction calls as [|call calls IH]; simpl; [done |].
  case_bool_decide; [done |]. intros Hnone. by rewrite IH.
Qed.

Lemma beforeAnalyzeIssue_with calls rest call :
  firstAnalyzeIssue calls = Some call →
  beforeAnalyzeIssue (calls ++ rest) = beforeAnalyzeIssue calls.
Proof.
  induction calls as [|c calls IH]; simpl; [done |].
  case_bool_decide; [done |]. intros Hsome. by rewrite IH.
Qed.

Lemma firstAnalyzeIssue_None calls :
  firstAnalyzeIssue calls = None ↔ Forall (λ call, name call ≠ Some "analyzeIssue") calls.
Proof.
  induction calls as [|call calls IH]; simpl; [by split; [intros _; apply List.Forall_nil |] |].
  case_bool_decide as Hfinal; split.
  - done.
  - intros Hall. apply Forall_cons in Hall as [Hcall _]. done.
  - intros Hnone. apply List.Forall_cons; [done | by apply IH].
  - intros Hall. apply Forall_cons in Hall as [_ Hall]. by apply IH.
Qed.

Section Facts.
Context {W : Type} `{!Models W}.
Variable tools : Tools W.
Variable systemInstruction : string.

Lemma filterer_lookup_declared n :
  n ∈ declarations tools → is_Some (aiFunctionsMap tools !! n).
Proof.
  unfold declarations. simpl. intros Hn.
  repeat (apply elem_of_cons in Hn as [-> | Hn]; [by eexists |]).
  by apply elem_of_nil in Hn.
Qed.

Lemma filterer_lookup_undeclared n :
  n ∉ declarations tools → aiFunctionsMap tools !! n = None.
Proof.
  unfold declarations, aiFunctionsMap, fromEntries. simpl. intros Hn.
  rewrite !lookup_insert_ne, lookup_empty; [done | | |];
    intros <-; apply Hn; repeat first [apply list_elem_of_here | apply list_elem_of_further].
Qed.

(** The execution of a call runs the implementation of a declared name,
    and nothing else. *)
Lemma execute_runs n args (rt : Runtime W) :
  implementationsRun (trace (execute tools n args rt).2)
  = implementationsRun (trace rt)
    ++ match n with
       | Some n => if bool_decide (n ∈ declarations tools) then [n] else []
       | None => []
       end.
Proof.
  unfold execute. destruct n as [n|]; simpl.
  - case_bool_decide as Hempty; simpl.
    + subst n. rewrite implementationsRun_snoc, bool_decide_eq_false_2; [done |].
      unfold declarations. simpl. intros Hin.
      repeat (apply elem_of_cons in Hin as [? | Hin]; [done |]).
      by apply elem_of_nil in Hin.
    + unfold runAiFunction. case_bool_decide as Hn.
      * destruct (filterer_lookup_declared n Hn) as [f Hf]. rewrite Hf. simpl.
        destruct (implementation f args (world rt)) as [[result|e] w']; simpl;
          by rewrite !implementationsRun_snoc, app_nil_r.
      * rewrite (filterer_lookup_undeclared n Hn). simpl.
        by rewrite implementationsRun_snoc.
  - by rewrite implementationsRun_snoc.
Qed.

(** A batch of calls: the implementations run and the way the batch ends. *)
Lemma filterer_processCalls_calls calls (st : State W) :
  implementationsRun (trace (runtime (processCalls tools calls st).2))
  = implementationsRun (trace (runtime st)) ++ explored (beforeAnalyzeIssue calls) ∧
  (processCalls tools calls st).1
  = match firstAnalyzeIssue calls with
    | Some call => Return (verdict (args call))
    | None => Continue
    end.
Proof.
  revert st. induction calls as [|call rest IH]; intros st; simpl.
  { by rewrite app_nil_r. }
  case_bool_decide as Hfinal; simpl.
  { by rewrite app_nil_r. }
  pose proof (execute_runs (name call) (Js.Obj (args call))
                (log debug ("🔧 Agent calling tool: " +:+ Js.show (name call) +:+ " with args:")
                     (runtime st))) as Hrun.
  destruct (execute _ _ _ _) as [result rt]. simpl in Hrun.
  rewrite implementationsRun_snoc, app_nil_r in Hrun.
  match goal with |- context [processCalls tools rest ?st1] =>
    destruct (IH st1) as [Himpl Hflow] end.
  simpl in Himpl. rewrite Himpl, Hflow, Hrun, <- app_assoc. split; [| done].
  do 2 f_equal. unfold explored. simpl. destruct (name call) as [n|]; simpl; [| done].
  clear Hrun Himpl Hflow. unfold declarations. simpl.
  case_bool_decide as Hn.
  - rewrite filter_cons_True; [done |].
    apply elem_of_cons in Hn as [-> | Hn]; [apply list_elem_of_here |].
    apply elem_of_cons in Hn as [-> | Hn]; [apply list_elem_of_further, list_elem_of_here |].
    apply list_elem_of_singleton in Hn as ->. done.
  - rewrite filter_cons_False; [done |]. intros Hin. apply Hn.
    apply elem_of_cons in Hin as [-> | Hin]; [apply list_elem_of_here |].
    apply list_elem_of_singleton in Hin as ->. apply list_elem_of_further, list_elem_of_here.
Qed.

(** A turn after which the loop goes on, and how the loop ended. *)
Definition filtererGoesOn (r : completion GenerateContentResponse) : Prop :=
  withToolCalls r ∧ withoutCallTo "analyzeIssue" r.

Definition filtererEnded (exhausted : Prop) (final : completion GenerateContentResponse)
    (fl : flow FiltererResult) : Prop :=
  match final with
  | Throw e => fl = Raise e
  | Normal response =>
      match firstAnalyzeIssue (default [] (functionCalls response)) with
      | Some call => fl = Return (verdict (args call))
      | None =>
          (default [] (functionCalls response) = [] ∧ fl = Break) ∨
          (default [] (functionCalls response) ≠ [] ∧ fl = Continue ∧ exhausted)
      end
  end.

(** The loop, by its turns. *)
Lemma filterer_iterations_run todo (st : State W) :
  ∃ rs,
    responsesOf (trace (runtime (iterations tools systemInstruction todo st).2))
    = responsesOf (trace (runtime st)) ++ rs ∧
    implementationsRun (trace (runtime (iterations tools systemInstruction todo st).2))
    = implementationsRun (trace (runtime st))
      ++ explored (beforeAnalyzeIssue (ReproducerMoreFacts.requested rs)) ∧
    ((rs = [] ∧ todo = 0%nat ∧ (iterations tools systemInstruction todo st).1 = Continue) ∨
     ∃ front final,
       rs = front ++ [final] ∧ Forall filtererGoesOn front ∧
       filtererEnded (length rs = todo) final (iterations tools systemInstruction todo st).1).
Proof.
  revert st. induction todo as [|todo IH]; intros st; simpl.
  { exists []. rewrite !app_nil_r. split; [done | split; [done | by left]]. }
  unfold iterationBody.
  destruct (generateContent _ _) as [[response|e] w']; simpl.
  - case_bool_decide as Hcalls; simpl.
    + assert (default [] (functionCalls response) = []) as Hnil.
      { by destruct (default [] (functionCalls response)). }
      exists [Normal response].
      rewrite !responsesOf_snoc, !implementationsRun_snoc, !app_nil_r.
      unfold ReproducerMoreFacts.requested. simpl. rewrite Hnil. simpl. rewrite app_nil_r.
      split; [done | split; [done |]]. right. exists [], (Normal response).
      split; [done | split; [apply List.Forall_nil |]].
      unfold filtererEnded. rewrite Hnil. by left.
    + assert (default [] (functionCalls response) ≠ []) as Hne.
      { intros Hnil. by rewrite Hnil in Hcalls. }
      set (st1 := {| runtime := emit (ModelInvoked _ (Normal response)) _;
                     contents := contents st |}).
      pose proof (filterer_processCalls_quiet tools (default [] (functionCalls response)) st1)
        as [Hq _].
      pose proof (filterer_processCalls_calls (default [] (functionCalls response)) st1)
        as [Himpl Hflow].
      destruct (processCalls tools (default [] (functionCalls response)) st1)
        as [fl st2]; subst st1; simpl in *.
      rewrite responsesOf_snoc in Hq. rewrite implementationsRun_snoc, app_nil_r in Himpl.
      destruct (firstAnalyzeIssue (default [] (functionCalls response))) as [call|] eqn:Hfirst;
        subst fl.
      * exists [Normal response]. unfold ReproducerMoreFacts.requested. simpl.
        rewrite app_nil_r, Hq, Himpl. split; [done | split; [done |]].
        right. exists [], (Normal response).
        split; [done | split; [apply List.Forall_nil |]].
        unfold filtererEnded. by rewrite Hfirst.
      * destruct (IH st2) as (rs & Hrs & Himpls & Hend).
        exists (Normal response :: rs). unfold ReproducerMoreFacts.requested in *. simpl.
        rewrite (beforeAnalyzeIssue_without _ _ Hfirst), Hrs, Himpls, Hq, Himpl.
        assert (beforeAnalyzeIssue (default [] (functionCalls response) ++ [])
                = default [] (functionCalls response)) as Hall.
        { by rewrite (beforeAnalyzeIssue_without _ _ Hfirst), app_nil_r. }
        rewrite app_nil_r in Hall. rewrite Hall.
        unfold explored. rewrite !omap_app, !filter_app, <- !app_assoc.
        split; [done | split; [done |]]. right.
        destruct Hend as [(-> & -> & Hfl) | (front & final & -> & Hfront & Hfinal)].
        -- exists [], (Normal response). split; [done | split; [apply List.Forall_nil |]].
           unfold filtererEnded. rewrite Hfirst. right. by rewrite Hfl.
        -- exists (Normal response :: front), final. split; [done |]. split.
           ++ apply List.Forall_cons; [| done]. split; eexists; (split; [done |]); [done |].
              by apply firstAnalyzeIssue_None.
           ++ unfold filtererEnded in *. destruct final as [last|e]; [| done].
              destruct (firstAnalyzeIssue (default [] (functionCalls last))); [done |].
              destruct Hfinal as [? | (? & ? & Hlen)]; [by left | right].
              split; [done | split; [done |]]. simpl. by rewrite Hlen.
  - exists [Throw e]. rewrite responsesOf_snoc, implementationsRun_snoc, app_nil_r.
    unfold ReproducerMoreFacts.requested. simpl. rewrite app_nil_r.
    split; [done | split; [done |]]. right. exists [], (Throw e).
    split; [done | split; [apply List.Forall_nil | done]].
Qed.

(** How a classification ends is decided by the last turn of the model.
    The model is invoked at least once, and every turn before the last
    requests tool calls, none of them the finalize call.  When the backend
    throws in the last turn, the run throws the same error; when the last
    turn calls the finalize tool, the run returns the verdict read from the
    arguments of the first such call.  Otherwise the run throws the error
    that names 10 iterations, both when the model was invoked ten times and
    when the last turn requested no call at all. *)
Theorem classification_is_decided_by_the_last_turn (initialPrompt : string) (w : W) :
  let run := analyzeIssueWithGemini tools systemInstruction initialPrompt w in
  ∃ front final,
    responsesOf (trace run.2) = front ++ [final] ∧ Forall filtererGoesOn front ∧
    match final with
    | Throw e => run.1 = Throw e
    | Normal response =>
        match firstAnalyzeIssue (default [] (functionCalls response)) with
        | Some call => run.1 = Normal (verdict (args call))
        | None =>
            run.1 = Throw (Js.new_Error
                             "AI completed analysis without calling analyzeIssue after 10 iterations") ∧
            (default [] (functionCalls response) = [] ∨ modelInvocations (trace run.2) = 10%nat)
        end
    end.
Proof.
  intros run. subst run. unfold analyzeIssueWithGemini, modelInvocations.
  set (st0 := {| runtime := {| world := w; trace := [] |}; contents := _ |}).
  destruct (filterer_iterations_run maxIterations st0) as (rs & Hrs & _ & Hend).
  destruct (iterations tools systemInstruction maxIterations st0) as [fl st]; simpl in *.
  destruct Hend as [(_ & Hzero & _) | (front & final & -> & Hfront & Hfinal)]; [done |].
  exists front, final. unfold filtererEnded in Hfinal.
  destruct final as [response|e].
  - destruct (firstAnalyzeIssue (default [] (functionCalls response))) as [call|].
    + subst fl. simpl. by rewrite Hrs.
    + destruct Hfinal as [[Hnil ->] | (Hne & -> & Hlen)]; simpl; rewrite Hrs;
        split_and!; eauto.
  - subst fl. simpl. by rewrite Hrs.
Qed.

(** The implementations that a classification executes are those of the
    requested readFile and listDir calls, once for each call and in the
    order of the requests, before the first call of the finalize tool; the
    finalize call itself, a call after it, a call without a name and a call
    of an undeclared name run nothing. *)
Theorem classification_runs_the_exploration_calls (initialPrompt : string) (w : W) :
  let run := analyzeIssueWithGemini tools systemInstruction initialPrompt w in
  implementationsRun (trace run.2)
  = explored (beforeAnalyzeIssue (ReproducerMoreFacts.requested (responsesOf (trace run.2)))).
Proof.
  intros run. subst run. unfold analyzeIssueWithGemini.
  set (st0 := {| runtime := {| world := w; trace := [] |}; contents := _ |}).
  destruct (filterer_iterations_run maxIterations st0) as (rs & Hrs & Himpl & _).
  destruct (iterations tools systemInstruction maxIterations st0) as [[| |v|e] st];
    simpl in *; by rewrite Himpl, Hrs.
Qed.

End Facts.
End FiltererMoreFacts.
